(** * Deep Interest Network: the model graph and the inference drivers

    A shallow embedding of [libreco/algorithms/din.py].  Scores, embedding
    entries and attention weights are real numbers (the float32 tensors of the
    source, their arithmetic read as exact; a constant or a Python float
    stored into such a tensor is rounded by [float32]); ids, counts and
    indices are integers.
    Python and TensorFlow operations that can fail return a [result]. *)

From Stdlib Require Import Reals Lra Lia ZArith Sorted.
From stdpp Require Import base option list gmap strings.

(** ** Exceptions and the error monad *)

Inductive exn : Set :=
  | ValueError
  | IndexError
  | KeyError
  | AttributeError
  | InvalidArgumentError.

Inductive result (A : Type) : Type :=
  | Ok (a : A)
  | Raise (e : exn).
Arguments Ok {A} a.
Arguments Raise {A} e.

#[global] Instance result_ret : MRet result := fun _ a => Ok a.
#[global] Instance result_bind : MBind result := fun _ _ f c =>
  match c with
  | Ok a => f a
  | Raise e => Raise e
  end.
#[global] Instance result_fmap : FMap result := fun _ _ f c =>
  match c with
  | Ok a => Ok (f a)
  | Raise e => Raise e
  end.

(** [self.<attr>] for an attribute that [__init__] or a builder sets only
    under [flag]. *)
Definition attr {A} (flag : bool) (a : A) : result A :=
  if flag then Ok a else Raise AttributeError.

(** ** Arrays *)

(** A trainable variable of shape [rows, K]: entry [t r c]. *)
Definition table : Type := nat -> nat -> R.

(** A two-dimensional numpy array. *)
Record array2 (A : Type) : Type := {
  nrows : nat;
  ncols : nat;
  cell : nat -> nat -> A
}.
Arguments nrows {A} a.
Arguments ncols {A} a.
Arguments cell {A} a r c.

Definition table_row (K : nat) (t : table) (r : nat) : list R :=
  map (t r) (seq 0 K).

Definition array2_row {A} (a : array2 A) (r : nat) : list A :=
  map (cell a r) (seq 0 (ncols a)).

Definition in_range (i : Z) (n : nat) : bool :=
  bool_decide (0 <= i < Z.of_nat n)%Z.

(** [tf.nn.embedding_lookup] on a variable of shape [rows, K]. *)
Definition embedding_lookup (rows K : nat) (t : table) (i : Z) : result (list R) :=
  if in_range i rows then Ok (table_row K t (Z.to_nat i))
  else Raise InvalidArgumentError.

(** [tf.gather] of one index along the axis that [l] lists. *)
Definition tf_gather {A} (l : list A) (i : Z) : result A :=
  if in_range i (length l) then
    match l !! Z.to_nat i with
    | Some a => Ok a
    | None => Raise InvalidArgumentError
    end
  else Raise InvalidArgumentError.

(** [tf.gather] of one row of a constant two-dimensional tensor. *)
Definition tf_gather_row {A} (a : array2 A) (i : Z) : result (list A) :=
  if in_range i (nrows a) then Ok (array2_row a (Z.to_nat i))
  else Raise InvalidArgumentError.

(** numpy indexing [a[i]] with an integer: negative indices count from the
    end. *)
Definition np_getitem {A} (a : list A) (i : Z) : result A :=
  let j := if (i <? 0)%Z then (i + Z.of_nat (length a))%Z else i in
  if in_range j (length a) then
    match a !! Z.to_nat j with
    | Some x => Ok x
    | None => Raise IndexError
    end
  else Raise IndexError.

(** ** Real-valued tensor operations *)

Section Numeric.
Local Open Scope R_scope.

Definition sum_list (l : list R) : R := foldr Rplus 0 l.

(** [1 / (1 + np.exp(-x))] *)
Definition sigmoid (x : R) : R := 1 / (1 + exp (- x)).

(** [tf.div_no_nan]: zero where the divisor is zero. *)
Definition div_no_nan (x y : R) : R :=
  if Req_dec_T y 0 then 0 else x / y.

(** [tf.nn.softmax] over a vector. *)
Definition softmax (xs : list R) : list R :=
  map (fun x => exp x / sum_list (map exp xs)) xs.

(** [tf.sequence_mask(keys_len, maxlen)] for one example. *)
Definition sequence_mask (keys_len maxlen : nat) : list bool :=
  map (fun i => bool_decide (i < keys_len)%nat) (seq 0 maxlen).

(** [tf.where(cond, x, y)] on vectors of one shape. *)
Fixpoint tf_where (cond : list bool) (x y : list R) : list R :=
  match cond, x, y with
  | c :: cond', a :: x', b :: y' => (if c then a else b) :: tf_where cond' x' y'
  | _, _, _ => []
  end.

(** Elementwise binary operation on feature vectors, with broadcasting of a
    length-one operand. *)
Definition broadcast2 (op : R -> R -> R) (x y : list R) : result (list R) :=
  if bool_decide (length x = length y) then Ok (zip_with op x y)
  else match x, y with
       | [a], _ => Ok (map (op a) y)
       | _, [b] => Ok (map (fun a => op a b) x)
       | _, _ => Raise InvalidArgumentError
       end.

(** [w @ keys] with [w] of shape [1, seq] and [keys] of shape [seq, K]. *)
Definition matmul_row (K : nat) (w : list R) (keys : list (list R)) : list R :=
  map (fun d => sum_list (zip_with (fun ws k => ws * nth d k 0) w keys)) (seq 0 K).

(** The exponent of the binade of [x]: the integer [e] with
    [2^e <= |x| < 2^(e+1)], for [x] other than zero. *)
Definition ilog2 (x : R) : Z := Int_part (ln (Rabs x) / ln 2).

(** The integer nearest to [y], ties to the even one. *)
Definition round_half_even (y : R) : Z :=
  let f := Int_part y in
  let d := y - IZR f in
  if Rlt_dec d (1 / 2) then f
  else if Rlt_dec (1 / 2) d then (f + 1)%Z
  else if Z.even f then f else (f + 1)%Z.

(** The value a [float32] array holds after a real (a Python float, a
    [float64]) is stored in it: the nearest multiple of the spacing of the
    binade of [x], 24 significant bits, least exponent -126 (below it the
    subnormal spacing [2^-149]), ties to even.  Magnitudes from about
    [2^128] on overflow to infinity, which this model does not hold. *)
Definition float32 (x : R) : R :=
  let e := Z.max (ilog2 x) (-126) in
  let ulp := powerRZ 2 (e - 23) in
  IZR (round_half_even (x / ulp)) * ulp.

(** [-2**32 + 1] as the elements of the [float32] tensor
    [tf.ones_like(attention_weights) * (-2**32 + 1)] hold it. *)
Definition padding_value : R := float32 (- 2 ^ 32 + 1).
End Numeric.

(** [tf.concat(parts, axis=2)] for one example: every part lists one vector
    per sequence step. *)
Definition concat_axis2 (parts : list (list (list R))) : list (list R) :=
  match parts with
  | [] => []
  | p :: ps => foldl (zip_with app) p ps
  end.

(** ** Data model *)

(** The feature-layout collaborator [data_info], as far as the model reads
    it.  [sparse_indices_of u i] and [dense_values_of u i] are the sparse index
    row and the dense value row that the index-resolution helpers produce for
    the pair [(u, i)]. *)
Record DataInfo : Type := {
  n_users : nat;
  n_items : nat;
  global_mean : R;
  user_consumed : gmap Z (list Z);
  item_sparse_unique : option (array2 Z);
  item_dense_unique : option (array2 R);
  item_sparse_col_index : list Z;
  item_dense_col_index : list Z;
  sparse_indices_of : Z -> Z -> list Z;
  dense_values_of : Z -> Z -> list R
}.

(** The attributes of a [DIN] object after [fit].  [attention_mlp] is the
    attention network ([dense_nn] with one hidden layer of 16 sigmoid units
    followed by a linear layer of one unit), [mlp] the fusion network
    ([dense_nn] over [hidden_units] followed by the final linear layer of one
    unit), both with their trained weights and in inference mode;
    [keras_attention] is [tf.keras.layers.Attention(use_scale=False)] applied
    to one query, its keys and the key mask. *)
Record DIN : Type := {
  task : string;
  data_info : DataInfo;
  embed_size : nat;
  max_seq_len : nat;
  use_tf_attention : bool;
  sparse : bool;
  dense : bool;
  sparse_feature_size : nat;
  sparse_field_size : nat;
  dense_field_size : nat;
  user_feat : table;
  item_feat : table;
  sparse_feat : table;
  dense_feat : table;
  attention_mlp : list R -> R;
  mlp : list R -> R;
  keras_attention : list R -> list (list R) -> list bool -> list R;
  user_last_interacted : list (list Z);
  last_interacted_len : list nat
}.

(** [self.item_sparse], [self.item_dense] *)
Definition item_sparse (m : DIN) : bool :=
  bool_decide (is_Some (item_sparse_unique (data_info m))).
Definition item_dense (m : DIN) : bool :=
  bool_decide (is_Some (item_dense_unique (data_info m))).

(** [self.item_sparse_col_indices], [self.item_dense_col_indices] *)
Definition item_sparse_col_indices (m : DIN) : list Z :=
  item_sparse_col_index (data_info m).
Definition item_dense_col_indices (m : DIN) : list Z :=
  item_dense_col_index (data_info m).

(** [self.default_prediction] *)
Definition default_prediction (m : DIN) : R :=
  if bool_decide (task m = "rating") then global_mean (data_info m) else 0%R.

(** One row of the feed: the values of the placeholders for one example. *)
Record feed_row : Type := {
  user_indices : Z;
  item_indices : Z;
  sparse_indices : list Z;
  dense_values : list R;
  user_interacted_seq : list Z;
  user_interacted_len : nat
}.

(** ** The graph, evaluated on one example *)

Section Graph.
Context (m : DIN).
Local Open Scope R_scope.

Local Abbreviation K := (embed_size m).
Local Abbreviation di := (data_info m).

(** [_build_user_item] *)
Definition user_embed (x : feed_row) : result (list R) :=
  embedding_lookup (n_users di) K (user_feat m) (user_indices x).

Definition item_embed (x : feed_row) : result (list R) :=
  embedding_lookup (n_items di) K (item_feat m) (item_indices x).

(** [_build_sparse]: the embedding of every sparse field, [F_sparse * K]. *)
Definition sparse_embed (x : feed_row) : result (list (list R)) :=
  mapM (embedding_lookup (sparse_feature_size m) K (sparse_feat m))
       (sparse_indices x).

(** The rows of [self.dense_feat]. *)
Definition dense_feat_rows : list (list R) :=
  map (table_row K (dense_feat m)) (seq 0 (dense_field_size m)).

(** [_build_dense]: every dense field's vector scaled by the field's value. *)
Definition dense_embed (x : feed_row) : list (list R) :=
  zip_with (fun row v => map (fun e => e * v) row) dense_feat_rows (dense_values x).

(** [tf.layers.flatten(tf.gather(embed, cols, axis=1))] *)
Definition gather_flatten (embed : list (list R)) (cols : list Z) : result (list R) :=
  g ← mapM (tf_gather embed) cols; Ok (concat g).

(** [self.item_embed] once [_build_user_item], [_build_sparse] and
    [_build_dense] have run. *)
Definition item_embed_list (x : feed_row) : result (list (list R)) :=
  ie ← item_embed x;
  s ← (if sparse m && item_sparse m then
         se ← sparse_embed x;
         g ← gather_flatten se (item_sparse_col_indices m);
         Ok [g]
       else Ok []);
  d ← (if dense m && item_dense m then
         g ← gather_flatten (dense_embed x) (item_dense_col_indices m);
         Ok [g]
       else Ok []);
  Ok ([ie] ++ s ++ d).

(** [item_total_embed = tf.concat(self.item_embed, axis=1)] *)
Definition item_total_embed (x : feed_row) : result (list R) :=
  parts ← item_embed_list x; Ok (concat parts).

(** The product of the tiled dense table [F_dense * K] with the per-item dense
    values [F * 1] of one sequence step, reshaped to [F * K]: the field axes
    must agree, or the table has a single field that is broadcast; a single
    value against several fields changes the batch axis in the reshape and
    the concatenation that follows fails. *)
Definition seq_dense_step (rows : list (list R)) (vs : list R) : result (list R) :=
  if bool_decide (length rows = length vs) then
    Ok (concat (zip_with (fun row v => map (fun e => e * v) row) rows vs))
  else match rows with
       | [row] => Ok (concat (map (fun v => map (fun e => e * v) row) vs))
       | _ => Raise InvalidArgumentError
       end.

(** [self.seq_embed] once the branches of [_build_attention] have run: one
    vector per sequence step in every part. *)
Definition seq_embed_list (x : feed_row) : result (list (list (list R))) :=
  seq_item_embed ← mapM (embedding_lookup (n_items di) K (item_feat m))
                        (user_interacted_seq x);
  s ← match item_sparse_unique di with
      | Some item_sparse_fields =>
          sf ← attr (sparse m) (sparse_feat m);
          seq_sparse_fields ← mapM (tf_gather_row item_sparse_fields)
                                   (user_interacted_seq x);
          seq_sparse_embed ←
            mapM (fun fields =>
                    e ← mapM (embedding_lookup (sparse_feature_size m) K sf) fields;
                    Ok (concat e))
                 seq_sparse_fields;
          Ok [seq_sparse_embed]
      | None => Ok []
      end;
  d ← match item_dense_unique di with
      | Some item_dense_values =>
          df ← attr (dense m) dense_feat_rows;
          seq_dense_values ← mapM (tf_gather_row item_dense_values)
                                  (user_interacted_seq x);
          seq_dense_embed ← mapM (seq_dense_step df) seq_dense_values;
          Ok [seq_dense_embed]
      | None => Ok []
      end;
  Ok ([seq_item_embed] ++ s ++ d).

(** [seq_total_embed = tf.concat(self.seq_embed, axis=2)] *)
Definition seq_total_embed (x : feed_row) : result (list (list R)) :=
  parts ← seq_embed_list x; Ok (concat_axis2 parts).

(** [keys.get_shape().as_list()[-1]]: the static feature length of the keys. *)
Definition keys_dim : nat :=
  K + match item_sparse_unique di with Some a => ncols a * K | None => 0 end
    + match item_dense_unique di with Some a => ncols a * K | None => 0 end.

(** The key mask of the attention unit. *)
Definition key_masks (keys_len : nat) : list bool :=
  sequence_mask keys_len (max_seq_len m).

(** [queries_keys_cross]: the tiled query, the keys, their difference and
    their product, concatenated along the feature axis. *)
Definition queries_keys_cross (queries : list R) (keys : list (list R))
  : result (list (list R)) :=
  mapM (fun qk : list R * list R =>
          let (q, k) := qk in
          sub ← broadcast2 Rminus q k;
          mul ← broadcast2 Rmult q k;
          Ok (q ++ k ++ sub ++ mul))
       (zip (replicate (max_seq_len m) queries) keys).

(** The raw attention logits [attention_weights], one per sequence step. *)
Definition attention_weights (queries : list R) (keys : list (list R))
  : result (list R) :=
  cross ← queries_keys_cross queries keys;
  Ok (map (attention_mlp m) cross).

(** The logits after masking with [paddings] and scaling by the square root of
    the key length. *)
Definition masked_scores (logits : list R) (keys_len : nat) : list R :=
  let paddings := map (fun _ => padding_value) logits in
  let attention_scores := tf_where (key_masks keys_len) logits paddings in
  map (fun s => div_no_nan s (sqrt (INR keys_dim))) attention_scores.

(** [attention_scores] after the softmax: the attention weight of every
    sequence step. *)
Definition attention_scores (queries : list R) (keys : list (list R))
    (keys_len : nat) : result (list R) :=
  logits ← attention_weights queries keys;
  Ok (softmax (masked_scores logits keys_len)).

Definition _attention_unit (queries : list R) (keys : list (list R))
    (keys_len : nat) : result (list R) :=
  if use_tf_attention m then
    Ok (keras_attention m queries keys (key_masks keys_len))
  else
    w ← attention_scores queries keys keys_len;
    Ok (matmul_row keys_dim w keys).

Definition _build_attention (x : feed_row) : result (list R) :=
  keys ← seq_total_embed x;
  queries ← item_total_embed x;
  _attention_unit queries keys (user_interacted_len x).

(** [tf.concat(self.concat_embed, axis=1)] *)
Definition concat_embed (x : feed_row) : result (list R) :=
  ue ← user_embed x;
  ie ← item_embed x;
  s ← (if sparse m then se ← sparse_embed x; Ok [concat se] else Ok []);
  d ← (if dense m then Ok [concat (dense_embed x)] else Ok []);
  a ← _build_attention x;
  Ok (concat ([ue; ie] ++ s ++ d ++ [a])).

(** [self.output] for one example: the raw score of the fusion head. *)
Definition output (x : feed_row) : result R :=
  c ← concat_embed x;
  Ok (mlp m c).

(** The feed agrees with the placeholders' static shapes. *)
Definition feed_shape_ok (x : feed_row) : bool :=
  bool_decide (length (user_interacted_seq x) = max_seq_len m)
  && (negb (sparse m)
      || bool_decide (length (sparse_indices x) = sparse_field_size m))
  && (negb (dense m)
      || bool_decide (length (dense_values x) = dense_field_size m)).

(** [self.sess.run(self.output, feed_dict)] *)
Definition sess_run_output (feed : list feed_row) : result (list R) :=
  mapM (fun x => if feed_shape_ok x then output x else Raise ValueError) feed.

End Graph.

(** ** The inference drivers *)

(** The [user] and [item] arguments of [predict]: a Python [int] or an array
    of ids (of an integer dtype, as [np.asarray] makes of a list of ints that
    is not empty). *)
Inductive py_ids : Type :=
  | PyInt (z : Z)
  | PyArray (l : list Z).

(** [np.asarray([v]) if isinstance(v, int) else np.asarray(v)] *)
Definition asarray (v : py_ids) : list Z :=
  match v with
  | PyInt z => [z]
  | PyArray l => l
  end.

(** What [predict] returns: one score or an array of scores. *)
Inductive prediction : Type :=
  | Scalar (r : R)
  | Array (l : list R).

(** [np.where(cond(a))[0]]: the positions of [a] at which [cond] holds. *)
Definition np_where (cond : Z -> bool) (a : list Z) : list nat :=
  filter (fun j => from_option cond false (a !! j)) (seq 0 (length a)).

(** The array [a] with [v] at every position of [index]. *)
Definition set_all {A} (index : list nat) (v : A) (a : list A) : list A :=
  foldr (fun j acc => <[j := v]> acc) a index.

(** [a[index] = v] with a list of positions: numpy raises [IndexError] on a
    position outside the array.  The value arrives as the dtype of [a] holds
    it: [predict] passes the [float32] of its default. *)
Definition np_setitem {A} (index : list nat) (v : A) (a : list A) : result (list A) :=
  if bool_decide (Forall (fun j => (j < length a)%nat) index)
  then Ok (set_all index v a)
  else Raise IndexError.

(** Modelled from the spec: [Base._check_unknown], which is not part of this
    file.  It resolves every user or item id unknown to the model (outside
    [0, n_users), [0, n_items)) to the placeholder index 0 in both arrays and
    records the positions that were unknown. *)
Definition _check_unknown (m : DIN) (user item : list Z)
  : nat * list nat * list Z * list Z :=
  let unknown_user := np_where (fun u => negb (in_range u (n_users (data_info m)))) user in
  let unknown_item := np_where (fun i => negb (in_range i (n_items (data_info m)))) item in
  let unknown_index := list_union unknown_user unknown_item in
  (length unknown_index, unknown_index,
   set_all unknown_index 0%Z user, set_all unknown_index 0%Z item).

(** Modelled from the spec: [Base._check_unknown_user], which is not part of
    this file.  It returns the user id when the model knows it and [None]
    otherwise. *)
Definition _check_unknown_user (m : DIN) (user : Z) : option Z :=
  if in_range user (n_users (data_info m)) then Some user else None.

(** Modelled from the spec: [get_predict_indices_and_values], which is not
    part of this file.  It returns the batch-ready index and value arrays of
    the given pairs. *)
Definition get_predict_indices_and_values (d : DataInfo) (user item : list Z)
  : list Z * list Z * list (list Z) * list (list R) :=
  (user, item, zip_with (sparse_indices_of d) user item,
   zip_with (dense_values_of d) user item).

(** Modelled from the spec: [get_recommend_indices_and_values], which is not
    part of this file.  It pairs the one user with every item id of the
    catalogue. *)
Definition get_recommend_indices_and_values (d : DataInfo) (user : Z) (n : nat)
  : list Z * list Z * list (list Z) * list (list R) :=
  let item := map Z.of_nat (seq 0 n) in
  (replicate n user, item, map (sparse_indices_of d user) item,
   map (dense_values_of d user) item).

(** Modelled from the spec: [TfMixin._get_seq_feed_dict], which is not part
    of this file.  It feeds the placeholders with the given columns; columns
    of different lengths are the fatal shape mismatch of the spec. *)
Definition _get_seq_feed_dict (u_seq : list (list Z)) (u_len : list nat)
    (user item : list Z) (sparse_idx : list (list Z)) (dense_val : list (list R))
  : result (list feed_row) :=
  if bool_decide (length item = length user) && bool_decide (length u_seq = length user)
     && bool_decide (length u_len = length user)
     && bool_decide (length sparse_idx = length user)
     && bool_decide (length dense_val = length user)
  then
    Ok (zip_with
          (fun (a : Z * Z * list Z) (b : list R * list Z * nat) =>
             {| user_indices := a.1.1; item_indices := a.1.2; sparse_indices := a.2;
                dense_values := b.1.1; user_interacted_seq := b.1.2;
                user_interacted_len := b.2 |})
          (zip (zip user item) sparse_idx) (zip (zip dense_val u_seq) u_len))
  else Raise InvalidArgumentError.

(** [predict]: [preds], the output of the session, is a [float32] array, so
    [preds[unknown_index] = self.default_prediction] stores the [float32] of
    the default. *)
Definition predict (m : DIN) (user item : py_ids) : result prediction :=
  let user := asarray user in
  let item := asarray item in
  let '(unknown_num, unknown_index, user, item) := _check_unknown m user item in
  let '(user_indices, item_indices, sparse_indices, dense_values) :=
    get_predict_indices_and_values (data_info m) user item in
  u_seq ← mapM (np_getitem (user_last_interacted m)) user;
  u_len ← mapM (np_getitem (last_interacted_len m)) user;
  feed_dict ← _get_seq_feed_dict u_seq u_len user_indices item_indices
                                 sparse_indices dense_values;
  preds ← sess_run_output m feed_dict;
  let preds := map sigmoid preds in
  preds ← (if bool_decide (0 < unknown_num)%nat
           then np_setitem unknown_index (float32 (default_prediction m)) preds
           else Ok preds);
  if bool_decide (length user = 1%nat) then
    p ← np_getitem preds 0; Ok (Scalar p)
  else Ok (Array preds).

(** Truth value of what [_check_unknown_user] returns: [None] and the integer
    0 are false. *)
Definition py_not (user : option Z) : bool :=
  match user with
  | None => true
  | Some u => bool_decide (u = 0%Z)
  end.

(** [sorted(l, key=key)]: the stable sort by ascending key. *)
Fixpoint insert_by {A} (key : A -> R) (x : A) (l : list A) : list A :=
  match l with
  | [] => [x]
  | y :: l' => if Rle_dec (key x) (key y) then x :: y :: l'
               else y :: insert_by key x l'
  end.

Definition sorted {A} (key : A -> R) (l : list A) : list A :=
  foldr (insert_by key) [] l.

(** [a[start:]] *)
Definition slice_from {A} (a : list A) (start : Z) : list A :=
  let n := Z.of_nat (length a) in
  let s := if (start <? 0)%Z then Z.max 0 (start + n) else Z.min start n in
  drop (Z.to_nat s) a.

(** [islice(it, stop)] *)
Definition islice {A} (it : list A) (stop : Z) : result (list A) :=
  if (stop <? 0)%Z then Raise ValueError else Ok (take (Z.to_nat stop) it).

Section Recommend.

(** The order in which numpy's selection algorithm leaves the indices of [a]
    when it partitions around position [kth]. *)
Variable introselect : list R -> nat -> list nat.

(** [np.argpartition(a, kth)] *)
Definition argpartition (a : list R) (kth : Z) : result (list nat) :=
  let k := if (kth <? 0)%Z then (kth + Z.of_nat (length a))%Z else kth in
  if in_range k (length a) then Ok (introselect a (Z.to_nat k))
  else Raise ValueError.

(** The last lines of [recommend_user]: from the scores [recos] of the whole
    catalogue and the user's consumed items to the recommendations. *)
Definition select_unconsumed (recos : list R) (consumed : list Z) (n_rec : Z)
  : result (list (Z * R)) :=
  let count := (n_rec + Z.of_nat (length consumed))%Z in
  part ← argpartition recos (- count);
  let ids := slice_from part (- count) in
  scores ← mapM (fun j : nat => np_getitem recos (Z.of_nat j)) ids;
  let rank := sorted (fun x : Z * R => (- x.2)%R) (zip (map Z.of_nat ids) scores) in
  islice (filter (fun rec : Z * R => rec.1 ∉ consumed) rank) n_rec.

Definition recommend_user (m : DIN) (user : Z) (n_rec : Z)
  : result (option (list (Z * R))) :=
  let user := _check_unknown_user m user in
  if py_not user then Ok None
  else
    let user := default 0%Z user in
    let n_items := n_items (data_info m) in
    let '(user_indices, item_indices, sparse_indices, dense_values) :=
      get_recommend_indices_and_values (data_info m) user n_items in
    u_row ← np_getitem (user_last_interacted m) user;
    u_one_len ← np_getitem (last_interacted_len m) user;
    let u_last_interacted := replicate n_items u_row in
    let u_interacted_len := replicate n_items u_one_len in
    feed_dict ← _get_seq_feed_dict u_last_interacted u_interacted_len
                                   user_indices item_indices
                                   sparse_indices dense_values;
    recos ← sess_run_output m feed_dict;
    let recos := map sigmoid recos in
    consumed ← match user_consumed (data_info m) !! user with
               | Some c => Ok c
               | None => Raise KeyError
               end;
    let count := (n_rec + Z.of_nat (length consumed))%Z in
    part ← argpartition recos (- count);
    let ids := slice_from part (- count) in
    scores ← mapM (fun j : nat => np_getitem recos (Z.of_nat j)) ids;
    let rank := sorted (fun x : Z * R => (- x.2)%R) (zip (map Z.of_nat ids) scores) in
    recs ← islice (filter (fun rec : Z * R => rec.1 ∉ consumed) rank) n_rec;
    Ok (Some recs).

End Recommend.

(** ** Fitted models

    What [fit] establishes about a model and its data before [predict] or
    [recommend_user] run: the cached sequences cover every user, and the
    feature layout is the one the variables were allocated for. *)

Definition all_in_range (n : nat) (l : list Z) : Prop :=
  Forall (fun i => in_range i n = true) l.

Record wf_model (m : DIN) : Prop := {
  wf_users : (0 < n_users (data_info m))%nat;
  wf_items : (0 < n_items (data_info m))%nat;
  wf_last_interacted :
    length (user_last_interacted m) = n_users (data_info m);
  wf_interacted_len :
    length (last_interacted_len m) = n_users (data_info m);
  wf_sequences :
    Forall (fun row => length row = max_seq_len m
                       /\ all_in_range (n_items (data_info m)) row)
           (user_last_interacted m);
  wf_consumed :
    forall u, in_range u (n_users (data_info m)) = true ->
              is_Some (user_consumed (data_info m) !! u);
  wf_sparse_rows :
    sparse m = true ->
    forall u i, in_range u (n_users (data_info m)) = true ->
                in_range i (n_items (data_info m)) = true ->
                length (sparse_indices_of (data_info m) u i) = sparse_field_size m
                /\ all_in_range (sparse_feature_size m)
                                (sparse_indices_of (data_info m) u i);
  wf_dense_rows :
    dense m = true ->
    forall u i, in_range u (n_users (data_info m)) = true ->
                in_range i (n_items (data_info m)) = true ->
                length (dense_values_of (data_info m) u i) = dense_field_size m;
  wf_item_sparse :
    forall a, item_sparse_unique (data_info m) = Some a ->
              sparse m = true
              /\ (n_items (data_info m) <= nrows a)%nat
              /\ (forall r c, (r < nrows a)%nat -> (c < ncols a)%nat ->
                              in_range (cell a r c) (sparse_feature_size m) = true)
              /\ length (item_sparse_col_indices m) = ncols a
              /\ all_in_range (sparse_field_size m) (item_sparse_col_indices m);
  wf_item_dense :
    forall a, item_dense_unique (data_info m) = Some a ->
              dense m = true
              /\ (n_items (data_info m) <= nrows a)%nat
              /\ ncols a = dense_field_size m
              /\ length (item_dense_col_indices m) = ncols a
              /\ all_in_range (dense_field_size m) (item_dense_col_indices m)
}.

(** A feed row that [predict] or [recommend_user] builds for a known pair. *)
Record row_ok (m : DIN) (x : feed_row) : Prop := {
  row_user : in_range (user_indices x) (n_users (data_info m)) = true;
  row_item : in_range (item_indices x) (n_items (data_info m)) = true;
  row_sparse :
    sparse_indices x = sparse_indices_of (data_info m) (user_indices x) (item_indices x);
  row_dense :
    dense_values x = dense_values_of (data_info m) (user_indices x) (item_indices x);
  row_seq_len : length (user_interacted_seq x) = max_seq_len m;
  row_seq : all_in_range (n_items (data_info m)) (user_interacted_seq x)
}.

(** ** Example models *)

(** Two users and a catalogue of three items, no sparse or dense features,
    embeddings of size one; user 1 has consumed items 0 and 1.  The fusion
    head returns [raw] and the attention network returns [logit] on every
    input. *)
Definition small_info : DataInfo := {|
  n_users := 2;
  n_items := 3;
  global_mean := 3%R;
  user_consumed := {[ 0%Z := [2%Z]; 1%Z := [0%Z; 1%Z] ]};
  item_sparse_unique := None;
  item_dense_unique := None;
  item_sparse_col_index := [];
  item_dense_col_index := [];
  sparse_indices_of := fun _ _ => [];
  dense_values_of := fun _ _ => []
|}.

Definition small_din (t : string) (raw logit : R) : DIN := {|
  task := t;
  data_info := small_info;
  embed_size := 1;
  max_seq_len := 2;
  use_tf_attention := false;
  sparse := false;
  dense := false;
  sparse_feature_size := 0;
  sparse_field_size := 0;
  dense_field_size := 0;
  user_feat := fun _ _ => 0%R;
  item_feat := fun _ _ => 0%R;
  sparse_feat := fun _ _ => 0%R;
  dense_feat := fun _ _ => 0%R;
  attention_mlp := fun _ => logit;
  mlp := fun _ => raw;
  keras_attention := fun _ _ _ => [];
  user_last_interacted := [[2%Z; 0%Z]; [0%Z; 1%Z]];
  last_interacted_len := [1%nat; 2%nat]
|}.

(** The same catalogue rated with mean [3.3333333333333335], the [float64]
    nearest to 10/3, and the model of it trained for the rating task. *)
Definition rated_info : DataInfo := {|
  n_users := 2;
  n_items := 3;
  global_mean := (7505999378950827 / 2251799813685248)%R;
  user_consumed := {[ 0%Z := [2%Z]; 1%Z := [0%Z; 1%Z] ]};
  item_sparse_unique := None;
  item_dense_unique := None;
  item_sparse_col_index := [];
  item_dense_col_index := [];
  sparse_indices_of := fun _ _ => [];
  dense_values_of := fun _ _ => []
|}.

Definition rated_din : DIN := {|
  task := "rating";
  data_info := rated_info;
  embed_size := 1;
  max_seq_len := 2;
  use_tf_attention := false;
  sparse := false;
  dense := false;
  sparse_feature_size := 0;
  sparse_field_size := 0;
  dense_field_size := 0;
  user_feat := fun _ _ => 0%R;
  item_feat := fun _ _ => 0%R;
  sparse_feat := fun _ _ => 0%R;
  dense_feat := fun _ _ => 0%R;
  attention_mlp := fun _ => 0%R;
  mlp := fun _ => 0%R;
  keras_attention := fun _ _ _ => [];
  user_last_interacted := [[2%Z; 0%Z]; [0%Z; 1%Z]];
  last_interacted_len := [1%nat; 2%nat]
|}.

(** Two users and three items with two sparse fields (field 0 of the user,
    field 1 of the item) and one dense field of the item, embeddings of size
    two. *)
Definition featured_info : DataInfo := {|
  n_users := 2;
  n_items := 3;
  global_mean := 3%R;
  user_consumed := {[ 0%Z := [2%Z]; 1%Z := [0%Z; 1%Z] ]};
  item_sparse_unique :=
    Some {| nrows := 3; ncols := 1; cell := fun r _ => (2 + Z.of_nat r)%Z |};
  item_dense_unique :=
    Some {| nrows := 3; ncols := 1; cell := fun r _ => INR r |};
  item_sparse_col_index := [1%Z];
  item_dense_col_index := [0%Z];
  sparse_indices_of := fun u i => [u; (2 + i)%Z];
  dense_values_of := fun _ i => [IZR i]
|}.

Definition featured_din : DIN := {|
  task := "ranking";
  data_info := featured_info;
  embed_size := 2;
  max_seq_len := 2;
  use_tf_attention := false;
  sparse := true;
  dense := true;
  sparse_feature_size := 5;
  sparse_field_size := 2;
  dense_field_size := 1;
  user_feat := fun r c => INR (r + c);
  item_feat := fun r c => INR (r * c);
  sparse_feat := fun r _ => INR r;
  dense_feat := fun _ _ => 1%R;
  attention_mlp := fun v => sum_list v;
  mlp := fun v => sum_list v;
  keras_attention := fun _ _ _ => [];
  user_last_interacted := [[2%Z; 0%Z]; [0%Z; 1%Z]];
  last_interacted_len := [1%nat; 2%nat]
|}.

(** The feed row of the pair (user 1, item 2) of [featured_din]. *)
Definition featured_row : feed_row := {|
  user_indices := 1;
  item_indices := 2;
  sparse_indices := [1%Z; 4%Z];
  dense_values := [2%R];
  user_interacted_seq := [0%Z; 1%Z];
  user_interacted_len := 2
|}.

(** ** Shapes *)

(** [part] lists [S] vectors of length [n]. *)
Definition uniform (S n : nat) (part : list (list R)) : Prop :=
  length part = S /\ Forall (fun v => length v = n) part.

(** The shape of what [predict] returns: [None] for a scalar, the length for
    an array. *)
Definition prediction_shape (r : prediction) : option nat :=
  match r with
  | Scalar _ => None
  | Array l => Some (length l)
  end.

(** The prediction for the pair at position [j] of the input. *)
Definition prediction_at (r : prediction) (j : nat) : option R :=
  match r with
  | Scalar p => if decide (j = 0%nat) then Some p else None
  | Array l => l !! j
  end.

(** The shape [predict] gives its result for [n] pairs. *)
Definition expected_shape (n : nat) : option nat :=
  if decide (n = 1%nat) then None else Some n.

(** A list of (item id, score) pairs in descending order of score. *)
Definition descending (recs : list (Z * R)) : Prop :=
  StronglySorted (fun x y => (y.2 <= x.2)%R) recs.

(** Every index that the selection order lists is an index of the array. *)
Definition valid_order (introselect : list R -> nat -> list nat) : Prop :=
  forall a k, Forall (fun j => (j < length a)%nat) (introselect a k).

(** ** Rows and selection orders *)

(** The feed row of the pair [(u, i)] as [predict] and [recommend_user] build
    it: the ids, the rows of the index-resolution helpers, and the cached
    sequence and length of the user. *)
Definition row_of (m : DIN) (u i : Z) : feed_row := {|
  user_indices := u;
  item_indices := i;
  sparse_indices := sparse_indices_of (data_info m) u i;
  dense_values := dense_values_of (data_info m) u i;
  user_interacted_seq := default [] (user_last_interacted m !! Z.to_nat u);
  user_interacted_len := default 0%nat (last_interacted_len m !! Z.to_nat u)
|}.

(** What numpy documents of [argpartition]: the result lists every index of
    the array once, and no element before position [kth] is larger than an
    element at or after it. *)
Definition partition_order (introselect : list R -> nat -> list nat) : Prop :=
  forall a k, (k < length a)%nat ->
    introselect a k ≡ₚ seq 0 (length a)
    /\ forall i j x y sx sy,
         (i < k)%nat -> (k <= j)%nat ->
         introselect a k !! i = Some x -> introselect a k !! j = Some y ->
         a !! x = Some sx -> a !! y = Some sy -> (sx <= sy)%R.

(** A selection order that sorts all the indices by ascending value. *)
Definition argsort (a : list R) (k : nat) : list nat :=
  sorted (fun j => nth j a 0%R) (seq 0 (length a)).

(** Two users and three items without sparse or dense features; user 1 has
    consumed item 0 only.  The item embedding grows with the item id and the
    fusion head sums its input, so the three items get different scores. *)
Definition shop_info : DataInfo := {|
  n_users := 2;
  n_items := 3;
  global_mean := 3%R;
  user_consumed := {[ 0%Z := [2%Z]; 1%Z := [0%Z] ]};
  item_sparse_unique := None;
  item_dense_unique := None;
  item_sparse_col_index := [];
  item_dense_col_index := [];
  sparse_indices_of := fun _ _ => [];
  dense_values_of := fun _ _ => []
|}.

Definition shop_din : DIN := {|
  task := "ranking";
  data_info := shop_info;
  embed_size := 1;
  max_seq_len := 1;
  use_tf_attention := false;
  sparse := false;
  dense := false;
  sparse_feature_size := 0;
  sparse_field_size := 0;
  dense_field_size := 0;
  user_feat := fun _ _ => 0%R;
  item_feat := fun r _ => INR r;
  sparse_feat := fun _ _ => 0%R;
  dense_feat := fun _ _ => 0%R;
  attention_mlp := fun v => sum_list v;
  mlp := fun v => sum_list v;
  keras_attention := fun _ _ _ => [];
  user_last_interacted := [[2%Z]; [0%Z]];
  last_interacted_len := [1%nat; 1%nat]
|}.

(** The layout of [featured_info] with one more dense field, of the user: two
    dense fields in all, one of them item-level. *)
Definition mixed_dense_din : DIN := {|
  task := "ranking";
  data_info := featured_info;
  embed_size := 2;
  max_seq_len := 2;
  use_tf_attention := false;
  sparse := true;
  dense := true;
  sparse_feature_size := 5;
  sparse_field_size := 2;
  dense_field_size := 2;
  user_feat := fun r c => INR (r + c);
  item_feat := fun r c => INR (r * c);
  sparse_feat := fun r _ => INR r;
  dense_feat := fun _ _ => 1%R;
  attention_mlp := fun v => sum_list v;
  mlp := fun v => sum_list v;
  keras_attention := fun _ _ _ => [];
  user_last_interacted := [[2%Z; 0%Z]; [0%Z; 1%Z]];
  last_interacted_len := [1%nat; 2%nat]
|}.

(** ** The error monad *)

Lemma bind_Ok {A B} (c : result A) (f : A -> result B) (b : B) :
  c ≫= f = Ok b <-> exists a, c = Ok a /\ f a = Ok b.
Proof.
  destruct c as [a|e]; simpl.
  - split; [intros H; exists a; auto | intros (a' & [= <-] & H); exact H].
  - split; [discriminate | intros (a' & [=] & _)].
Qed.

Lemma mapM_Ok {A B} (f : A -> result B) (l : list A) (ys : list B) :
  mapM f l = Ok ys <-> Forall2 (fun x y => f x = Ok y) l ys.
Proof.
  revert ys. induction l as [|x l IH]; intros ys; simpl.
  - split.
    + intros [= <-]. constructor.
    + intros H. inversion H. reflexivity.
  - split.
    + intros H. apply bind_Ok in H as (y & Hy & H).
      apply bind_Ok in H as (k & Hk & H). injection H as <-.
      constructor; [exact Hy | apply IH, Hk].
    + intros H. inversion H as [|? y ? k Hy Hk]; subst.
      rewrite Hy. simpl. apply IH in Hk. rewrite Hk. reflexivity.
Qed.

Lemma mapM_Ok_length {A B} (f : A -> result B) (l : list A) (ys : list B) :
  mapM f l = Ok ys -> length ys = length l.
Proof. intros H. apply mapM_Ok in H. symmetry. exact (Forall2_length _ _ _ H). Qed.

Lemma mapM_total {A B} (f : A -> result B) (l : list A) :
  Forall (fun x => exists y, f x = Ok y) l -> exists ys, mapM f l = Ok ys.
Proof.
  induction 1 as [|x l [y Hy] _ [ys Hys]]; simpl.
  - exists []. reflexivity.
  - exists (y :: ys). rewrite Hy. simpl. rewrite Hys. reflexivity.
Qed.

Lemma mapM_Ok_Forall {A B} (P : B -> Prop) (f : A -> result B) (l : list A)
    (ys : list B) :
  (forall x y, f x = Ok y -> P y) -> mapM f l = Ok ys -> Forall P ys.
Proof.
  intros HP H. apply mapM_Ok in H.
  induction H as [|x y l ys Hxy _ IH]; constructor; eauto.
Qed.

(** ** Shapes of the embeddings *)

Lemma table_row_length (K : nat) (t : table) (r : nat) :
  length (table_row K t r) = K.
Proof. unfold table_row. rewrite length_map, length_seq. reflexivity. Qed.

Lemma embedding_lookup_length (rows K : nat) (t : table) (i : Z) (v : list R) :
  embedding_lookup rows K t i = Ok v -> length v = K.
Proof.
  unfold embedding_lookup. destruct (in_range i rows); [|discriminate].
  intros [= <-]. apply table_row_length.
Qed.

Lemma embedding_lookup_in_range (rows K : nat) (t : table) (i : Z) :
  in_range i rows = true ->
  embedding_lookup rows K t i = Ok (table_row K t (Z.to_nat i)).
Proof. unfold embedding_lookup. intros ->. reflexivity. Qed.

Lemma tf_gather_elem {A} (l : list A) (i : Z) (a : A) :
  tf_gather l i = Ok a -> a ∈ l.
Proof.
  unfold tf_gather. destruct (in_range i (length l)); [|discriminate].
  destruct (l !! Z.to_nat i) as [b|] eqn:E; [|discriminate].
  intros [= <-]. eapply list_elem_of_lookup_2, E.
Qed.

Lemma tf_gather_in_range {A} (l : list A) (i : Z) :
  in_range i (length l) = true -> exists a, tf_gather l i = Ok a.
Proof.
  unfold tf_gather. intros Hi. rewrite Hi.
  apply bool_decide_eq_true_1 in Hi.
  destruct (lookup_lt_is_Some_2 l (Z.to_nat i)) as [a ->]; [lia|].
  exists a. reflexivity.
Qed.

Lemma concat_length_uniform {A} (n : nat) (ls : list (list A)) :
  Forall (fun l => length l = n) ls -> length (concat ls) = (length ls * n)%nat.
Proof.
  induction 1 as [|l ls Hl _ IH]; simpl; [reflexivity|].
  rewrite length_app, Hl, IH. reflexivity.
Qed.

Lemma gather_flatten_length (n : nat) (embed : list (list R)) (cols : list Z)
    (g : list R) :
  Forall (fun row => length row = n) embed ->
  gather_flatten embed cols = Ok g ->
  length g = (length cols * n)%nat.
Proof.
  intros Hrows H. unfold gather_flatten in H.
  apply bind_Ok in H as (rows & Hg & [= <-]).
  rewrite <- (mapM_Ok_length _ _ _ Hg).
  apply concat_length_uniform.
  eapply mapM_Ok_Forall; [|exact Hg].
  intros c row Hc. apply tf_gather_elem in Hc.
  rewrite Forall_forall in Hrows. apply Hrows, Hc.
Qed.

Lemma gather_flatten_total (embed : list (list R)) (cols : list Z) :
  all_in_range (length embed) cols -> exists g, gather_flatten embed cols = Ok g.
Proof.
  intros Hc. unfold gather_flatten.
  destruct (mapM_total (tf_gather embed) cols) as [rows ->].
  - eapply Forall_impl; [exact Hc|]. intros c. apply tf_gather_in_range.
  - eexists. reflexivity.
Qed.

Lemma sparse_embed_rows (m : DIN) (x : feed_row) (se : list (list R)) :
  sparse_embed m x = Ok se ->
  Forall (fun row => length row = embed_size m) se
  /\ length se = length (sparse_indices x).
Proof.
  intros H. split; [|eapply mapM_Ok_length, H].
  eapply mapM_Ok_Forall; [|exact H].
  intros i row. apply embedding_lookup_length.
Qed.

Lemma sparse_embed_total (m : DIN) (x : feed_row) :
  all_in_range (sparse_feature_size m) (sparse_indices x) ->
  exists se, sparse_embed m x = Ok se.
Proof.
  intros H. apply mapM_total. eapply Forall_impl; [exact H|].
  intros i Hi. rewrite (embedding_lookup_in_range _ _ _ _ Hi). eauto.
Qed.

Lemma dense_feat_rows_length (m : DIN) :
  length (dense_feat_rows m) = dense_field_size m.
Proof. unfold dense_feat_rows. rewrite length_map, length_seq. reflexivity. Qed.

Lemma dense_feat_rows_uniform (m : DIN) :
  Forall (fun row => length row = embed_size m) (dense_feat_rows m).
Proof.
  unfold dense_feat_rows. apply Forall_map, Forall_forall.
  intros r _. apply table_row_length.
Qed.

Lemma scaled_rows_uniform (n : nat) (rows : list (list R)) (vs : list R) :
  Forall (fun row => length row = n) rows ->
  Forall (fun row => length row = n)
         (zip_with (fun row v => map (fun e => (e * v)%R) row) rows vs).
Proof.
  intros H. revert vs. induction H as [|row rows Hrow _ IH]; intros [|v vs]; simpl;
    constructor; [rewrite length_map; exact Hrow | apply IH].
Qed.

Lemma dense_embed_rows (m : DIN) (x : feed_row) :
  Forall (fun row => length row = embed_size m) (dense_embed m x).
Proof. apply scaled_rows_uniform, dense_feat_rows_uniform. Qed.

Lemma dense_embed_length (m : DIN) (x : feed_row) :
  length (dense_values x) = dense_field_size m ->
  length (dense_embed m x) = dense_field_size m.
Proof.
  intros H. unfold dense_embed.
  rewrite length_zip_with, dense_feat_rows_length, H. lia.
Qed.

Lemma item_sparse_true (m : DIN) :
  item_sparse m = true -> exists a, item_sparse_unique (data_info m) = Some a.
Proof. unfold item_sparse. intros H. apply bool_decide_eq_true_1 in H. exact H. Qed.

Lemma item_dense_true (m : DIN) :
  item_dense m = true -> exists a, item_dense_unique (data_info m) = Some a.
Proof. unfold item_dense. intros H. apply bool_decide_eq_true_1 in H. exact H. Qed.

Lemma row_sparse_indices (m : DIN) (x : feed_row) :
  wf_model m -> row_ok m x -> sparse m = true ->
  length (sparse_indices x) = sparse_field_size m
  /\ all_in_range (sparse_feature_size m) (sparse_indices x).
Proof.
  intros Hm Hx Hs. rewrite (row_sparse _ _ Hx).
  apply (wf_sparse_rows _ Hm Hs); [apply (row_user _ _ Hx) | apply (row_item _ _ Hx)].
Qed.

Lemma row_dense_values (m : DIN) (x : feed_row) :
  wf_model m -> row_ok m x -> dense m = true ->
  length (dense_values x) = dense_field_size m.
Proof.
  intros Hm Hx Hd. rewrite (row_dense _ _ Hx).
  apply (wf_dense_rows _ Hm Hd); [apply (row_user _ _ Hx) | apply (row_item _ _ Hx)].
Qed.

Lemma item_embed_list_total (m : DIN) (x : feed_row) :
  wf_model m -> row_ok m x -> exists parts, item_embed_list m x = Ok parts.
Proof.
  intros Hm Hx. unfold item_embed_list, item_embed.
  rewrite (embedding_lookup_in_range _ _ _ _ (row_item _ _ Hx)). simpl.
  assert (exists s, (if sparse m && item_sparse m
                     then se ← sparse_embed m x;
                          g ← gather_flatten se (item_sparse_col_indices m); Ok [g]
                     else Ok []) = Ok s) as [s ->].
  { destruct (sparse m) eqn:Hs; simpl; [|eauto].
    destruct (item_sparse m) eqn:His; [|eauto].
    destruct (item_sparse_true _ His) as [a Ha].
    destruct (wf_item_sparse _ Hm a Ha) as (_ & _ & _ & _ & Hcols).
    destruct (row_sparse_indices m x Hm Hx Hs) as [Hlen Hrange].
    destruct (sparse_embed_total m x Hrange) as [se Hse]. rewrite Hse. simpl.
    destruct (gather_flatten_total se (item_sparse_col_indices m)) as [g ->].
    - apply sparse_embed_rows in Hse as [_ ->]. rewrite Hlen. exact Hcols.
    - eauto. }
  simpl.
  assert (exists d, (if dense m && item_dense m
                     then g ← gather_flatten (dense_embed m x) (item_dense_col_indices m);
                          Ok [g]
                     else Ok []) = Ok d) as [d ->].
  { destruct (dense m) eqn:Hd; simpl; [|eauto].
    destruct (item_dense m) eqn:Hid; [|eauto].
    destruct (item_dense_true _ Hid) as [a Ha].
    destruct (wf_item_dense _ Hm a Ha) as (_ & _ & _ & _ & Hcols).
    destruct (gather_flatten_total (dense_embed m x) (item_dense_col_indices m)) as [g ->].
    - rewrite (dense_embed_length m x (row_dense_values m x Hm Hx Hd)). exact Hcols.
    - eauto. }
  simpl. eauto.
Qed.

Lemma item_embed_list_lengths (m : DIN) (x : feed_row) (parts : list (list R)) :
  item_embed_list m x = Ok parts ->
  length (concat parts)
  = (embed_size m
     + (if sparse m && item_sparse m
        then length (item_sparse_col_indices m) * embed_size m else 0)
     + (if dense m && item_dense m
        then length (item_dense_col_indices m) * embed_size m else 0))%nat.
Proof.
  unfold item_embed_list. intros H.
  apply bind_Ok in H as (ie & Hie & H).
  apply bind_Ok in H as (s & Hs & H).
  apply bind_Ok in H as (d & Hd & [= <-]).
  apply embedding_lookup_length in Hie.
  assert (length (concat s)
          = if sparse m && item_sparse m
            then (length (item_sparse_col_indices m) * embed_size m)%nat else 0%nat) as Es.
  { destruct (sparse m && item_sparse m); [|injection Hs as <-; reflexivity].
    apply bind_Ok in Hs as (se & Hse & Hs).
    apply bind_Ok in Hs as (g & Hg & [= <-]).
    simpl. rewrite app_nil_r.
    eapply gather_flatten_length; [|exact Hg].
    apply (sparse_embed_rows m x se Hse). }
  assert (length (concat d)
          = if dense m && item_dense m
            then (length (item_dense_col_indices m) * embed_size m)%nat else 0%nat) as Ed.
  { destruct (dense m && item_dense m); [|injection Hd as <-; reflexivity].
    apply bind_Ok in Hd as (g & Hg & [= <-]).
    simpl. rewrite app_nil_r.
    eapply gather_flatten_length; [|exact Hg].
    apply dense_embed_rows. }
  simpl. rewrite length_app, concat_app, length_app, Es, Ed, Hie. lia.
Qed.


(** ** The keys of the attention unit *)

Lemma uniform_zip_app (S a b : nat) (p q : list (list R)) :
  uniform S a p -> uniform S b q -> uniform S (a + b) (zip_with app p q).
Proof.
  intros [Hp Hpa] [Hq Hqb]. split.
  - rewrite length_zip_with. lia.
  - clear Hp Hq. revert q Hqb.
    induction Hpa as [|v p Hv _ IH]; intros q Hqb; simpl; [constructor|].
    destruct Hqb as [|w q Hw Hq]; constructor.
    + rewrite length_app. lia.
    + apply IH, Hq.
Qed.

Lemma concat_axis2_uniform (S n : nat) (p : list (list R))
    (ps : list (list (list R))) (dims : list nat) :
  uniform S n p -> Forall2 (uniform S) dims ps ->
  uniform S (n + foldr Nat.add 0%nat dims) (concat_axis2 (p :: ps)).
Proof.
  simpl. intros Hp H. revert n p Hp.
  induction H as [|d q dims ps Hq _ IH]; intros n p Hp; simpl.
  - rewrite Nat.add_0_r. exact Hp.
  - replace (n + (d + foldr Nat.add 0 dims))%nat
      with ((n + d) + foldr Nat.add 0 dims)%nat by lia.
    apply IH, uniform_zip_app; assumption.
Qed.

Lemma mapM_uniform {A} (S n : nat) (f : A -> result (list R)) (l : list A) :
  length l = S ->
  Forall (fun a => exists v, f a = Ok v /\ length v = n) l ->
  exists part, mapM f l = Ok part /\ uniform S n part.
Proof.
  intros <- H.
  destruct (mapM_total f l) as [part Hpart].
  { eapply Forall_impl; [exact H|]. intros a (v & Hv & _). eauto. }
  exists part. split; [exact Hpart|]. split; [eapply mapM_Ok_length, Hpart|].
  apply mapM_Ok in Hpart. clear -H Hpart.
  induction Hpart as [|a v l part Hav _ IH]; constructor.
  - apply Forall_inv in H as (v' & Hv' & Hlen). congruence.
  - apply IH. eapply Forall_inv_tail, H.
Qed.

Lemma tf_gather_row_in_range {A} (a : array2 A) (i : Z) :
  in_range i (nrows a) = true ->
  tf_gather_row a i = Ok (array2_row a (Z.to_nat i)).
Proof. unfold tf_gather_row. intros ->. reflexivity. Qed.

Lemma in_range_le (i : Z) (n n' : nat) :
  (n <= n')%nat -> in_range i n = true -> in_range i n' = true.
Proof.
  unfold in_range. intros Hn H. apply bool_decide_eq_true_1 in H.
  apply bool_decide_eq_true_2. lia.
Qed.

Lemma in_range_to_nat (i : Z) (n : nat) :
  in_range i n = true -> (Z.to_nat i < n)%nat.
Proof. unfold in_range. intros H. apply bool_decide_eq_true_1 in H. lia. Qed.

Lemma seq_item_embed_uniform (m : DIN) (x : feed_row) :
  row_ok m x ->
  exists part,
    mapM (embedding_lookup (n_items (data_info m)) (embed_size m) (item_feat m))
         (user_interacted_seq x) = Ok part
    /\ uniform (max_seq_len m) (embed_size m) part.
Proof.
  intros Hx. apply mapM_uniform; [apply (row_seq_len _ _ Hx)|].
  eapply Forall_impl; [apply (row_seq _ _ Hx)|].
  intros i Hi. rewrite (embedding_lookup_in_range _ _ _ _ Hi).
  eexists. split; [reflexivity | apply table_row_length].
Qed.

Lemma seq_sparse_step_total (m : DIN) (a : array2 Z) (r : nat) :
  (forall c, (c < ncols a)%nat ->
             in_range (cell a r c) (sparse_feature_size m) = true) ->
  exists v,
    (e ← mapM (embedding_lookup (sparse_feature_size m) (embed_size m) (sparse_feat m))
             (array2_row a r);
     Ok (concat e)) = Ok v
    /\ length v = (ncols a * embed_size m)%nat.
Proof.
  intros Hcells.
  destruct (mapM_uniform (ncols a) (embed_size m)
              (embedding_lookup (sparse_feature_size m) (embed_size m) (sparse_feat m))
              (array2_row a r)) as (e & He & Hlen & Hrows).
  - unfold array2_row. rewrite length_map, length_seq. reflexivity.
  - unfold array2_row. apply Forall_map, Forall_forall. intros c Hc.
    apply elem_of_seq in Hc.
    rewrite (embedding_lookup_in_range _ _ _ (cell a r c)) by (apply Hcells; lia).
    eexists. split; [reflexivity | apply table_row_length].
  - exists (concat e). rewrite He. split; [reflexivity|].
    rewrite (concat_length_uniform _ _ Hrows), Hlen. reflexivity.
Qed.

Lemma seq_dense_step_total (rows : list (list R)) (vs : list R) (n : nat) :
  length rows = length vs -> Forall (fun row => length row = n) rows ->
  exists v, seq_dense_step rows vs = Ok v /\ length v = (length vs * n)%nat.
Proof.
  intros Hlen Hrows. unfold seq_dense_step.
  rewrite bool_decide_eq_true_2 by exact Hlen.
  eexists. split; [reflexivity|].
  rewrite (concat_length_uniform n).
  - rewrite length_zip_with. f_equal. lia.
  - apply scaled_rows_uniform, Hrows.
Qed.

Lemma seq_embed_list_total (m : DIN) (x : feed_row) :
  wf_model m -> row_ok m x ->
  exists parts, seq_embed_list m x = Ok parts
                /\ uniform (max_seq_len m) (keys_dim m) (concat_axis2 parts).
Proof.
  intros Hm Hx. unfold seq_embed_list.
  destruct (seq_item_embed_uniform m x Hx) as (p & -> & Hp). simpl.
  assert (exists s, match item_sparse_unique (data_info m) with
                    | Some item_sparse_fields =>
                        sf ← attr (sparse m) (sparse_feat m);
                        seq_sparse_fields ← mapM (tf_gather_row item_sparse_fields)
                                                 (user_interacted_seq x);
                        seq_sparse_embed ←
                          mapM (fun fields =>
                                  e ← mapM (embedding_lookup (sparse_feature_size m)
                                                             (embed_size m) sf) fields;
                                  Ok (concat e))
                               seq_sparse_fields;
                        Ok [seq_sparse_embed]
                    | None => Ok []
                    end = Ok s
                    /\ Forall2 (uniform (max_seq_len m))
                         match item_sparse_unique (data_info m) with
                         | Some a => [(ncols a * embed_size m)%nat]
                         | None => []
                         end s) as (s & -> & Hs).
  { destruct (item_sparse_unique (data_info m)) as [a|] eqn:Ha;
      [|exists []; split; [reflexivity | constructor]].
    destruct (wf_item_sparse _ Hm a Ha) as (-> & Hrows & Hcells & _). simpl.
    assert (mapM (tf_gather_row a) (user_interacted_seq x)
            = Ok (map (fun i => array2_row a (Z.to_nat i)) (user_interacted_seq x))) as ->.
    { apply mapM_Ok, Forall2_fmap_r, Forall_Forall2_diag.
      eapply Forall_impl; [apply (row_seq _ _ Hx)|].
      intros i Hi. apply tf_gather_row_in_range. eapply in_range_le; eassumption. }
    simpl.
    destruct (mapM_uniform (max_seq_len m) (ncols a * embed_size m)
                (fun fields =>
                   e ← mapM (embedding_lookup (sparse_feature_size m) (embed_size m)
                                              (sparse_feat m)) fields;
                   Ok (concat e))
                (map (fun i => array2_row a (Z.to_nat i)) (user_interacted_seq x)))
      as (part & -> & Hpart).
    - rewrite length_map. apply (row_seq_len _ _ Hx).
    - apply Forall_map. eapply Forall_impl; [apply (row_seq _ _ Hx)|].
      intros i Hi. simpl. apply seq_sparse_step_total.
      intros c Hc. apply Hcells; [|exact Hc].
      apply in_range_to_nat. eapply in_range_le; eassumption.
    - exists [part]. split; [reflexivity|]. repeat constructor; apply Hpart. }
  simpl.
  assert (exists d, match item_dense_unique (data_info m) with
                    | Some item_dense_values =>
                        df ← attr (dense m) (dense_feat_rows m);
                        seq_dense_values ← mapM (tf_gather_row item_dense_values)
                                                (user_interacted_seq x);
                        seq_dense_embed ← mapM (seq_dense_step df) seq_dense_values;
                        Ok [seq_dense_embed]
                    | None => Ok []
                    end = Ok d
                    /\ Forall2 (uniform (max_seq_len m))
                         match item_dense_unique (data_info m) with
                         | Some a => [(ncols a * embed_size m)%nat]
                         | None => []
                         end d) as (d & -> & Hd).
  { destruct (item_dense_unique (data_info m)) as [a|] eqn:Ha;
      [|exists []; split; [reflexivity | constructor]].
    destruct (wf_item_dense _ Hm a Ha) as (-> & Hrows & Hcols & _). simpl.
    assert (mapM (tf_gather_row a) (user_interacted_seq x)
            = Ok (map (fun i => array2_row a (Z.to_nat i)) (user_interacted_seq x))) as ->.
    { apply mapM_Ok, Forall2_fmap_r, Forall_Forall2_diag.
      eapply Forall_impl; [apply (row_seq _ _ Hx)|].
      intros i Hi. apply tf_gather_row_in_range. eapply in_range_le; eassumption. }
    simpl.
    destruct (mapM_uniform (max_seq_len m) (ncols a * embed_size m)
                (seq_dense_step (dense_feat_rows m))
                (map (fun i => array2_row a (Z.to_nat i)) (user_interacted_seq x)))
      as (part & -> & Hpart).
    - rewrite length_map. apply (row_seq_len _ _ Hx).
    - apply Forall_map, Forall_forall. intros i _. simpl.
      assert (length (array2_row a (Z.to_nat i)) = ncols a) as Hlen.
      { unfold array2_row. rewrite length_map, length_seq. reflexivity. }
      rewrite <- Hlen. apply seq_dense_step_total.
      + rewrite dense_feat_rows_length, Hlen. congruence.
      + apply dense_feat_rows_uniform.
    - exists [part]. split; [reflexivity|]. repeat constructor; apply Hpart. }
  simpl. eexists. split; [reflexivity|].
  eassert (Forall2 (uniform (max_seq_len m)) _ (s ++ d)) as Hsd
    by (apply Forall2_app; eassumption).
  pose proof (concat_axis2_uniform _ _ p (s ++ d) _ Hp Hsd) as H.
  replace (keys_dim m) with
    (embed_size m
     + foldr Nat.add 0%nat
         (match item_sparse_unique (data_info m) with
          | Some a => [(ncols a * embed_size m)%nat] | None => [] end
          ++ match item_dense_unique (data_info m) with
             | Some a => [(ncols a * embed_size m)%nat] | None => [] end))%nat;
    [exact H|].
  unfold keys_dim.
  destruct (item_sparse_unique (data_info m)), (item_dense_unique (data_info m));
    simpl; lia.
Qed.

Lemma item_total_embed_keys_dim (m : DIN) (x : feed_row) (q : list R) :
  wf_model m -> item_total_embed m x = Ok q -> length q = keys_dim m.
Proof.
  intros Hm H. unfold item_total_embed in H.
  apply bind_Ok in H as (parts & Hparts & [= <-]).
  rewrite (item_embed_list_lengths m x parts Hparts).
  unfold keys_dim, item_sparse, item_dense.
  pose proof (wf_item_sparse _ Hm) as Hs. pose proof (wf_item_dense _ Hm) as Hd.
  destruct (item_sparse_unique (data_info m)) as [a|];
    destruct (item_dense_unique (data_info m)) as [b|].
  - destruct (Hs a eq_refl) as (-> & _ & _ & -> & _).
    destruct (Hd b eq_refl) as (-> & _ & _ & -> & _). reflexivity.
  - destruct (Hs a eq_refl) as (-> & _ & _ & -> & _).
    rewrite andb_false_r. reflexivity.
  - destruct (Hd b eq_refl) as (-> & _ & _ & -> & _).
    rewrite andb_false_r. reflexivity.
  - rewrite !andb_false_r. reflexivity.
Qed.

(** ** The attention unit returns *)

Lemma broadcast2_same_length (op : R -> R -> R) (x y : list R) :
  length x = length y -> broadcast2 op x y = Ok (zip_with op x y).
Proof. intros H. unfold broadcast2. rewrite bool_decide_eq_true_2 by exact H. reflexivity. Qed.

Lemma queries_keys_cross_total (m : DIN) (q : list R) (keys : list (list R)) :
  Forall (fun k => length k = length q) keys ->
  exists cross, queries_keys_cross m q keys = Ok cross
                /\ length cross = Nat.min (max_seq_len m) (length keys).
Proof.
  intros Hk. unfold queries_keys_cross.
  destruct (mapM_total
              (fun qk : list R * list R =>
                 let (q0, k) := qk in
                 sub ← broadcast2 Rminus q0 k;
                 mul ← broadcast2 Rmult q0 k;
                 Ok (q0 ++ k ++ sub ++ mul))
              (zip (replicate (max_seq_len m) q) keys)) as [cross Hc].
  - generalize (max_seq_len m) as n. induction Hk as [|k keys Hlen _ IH]; intros [|n]; simpl;
      constructor; [|apply IH].
    rewrite !broadcast2_same_length by congruence. simpl. eauto.
  - exists cross. split; [exact Hc|].
    rewrite (mapM_Ok_length _ _ _ Hc), length_zip, length_replicate. reflexivity.
Qed.

Lemma tf_where_length (cond : list bool) (x y : list R) :
  length cond = length x -> length y = length x ->
  length (tf_where cond x y) = length x.
Proof.
  revert x y. induction cond as [|c cond IH]; intros [|a x] [|b y]; simpl; try lia.
  intros Hc Hy. rewrite IH by lia. reflexivity.
Qed.

Lemma sequence_mask_length (l n : nat) : length (sequence_mask l n) = n.
Proof. unfold sequence_mask. rewrite length_map, length_seq. reflexivity. Qed.

Lemma softmax_length (xs : list R) : length (softmax xs) = length xs.
Proof. unfold softmax. apply length_map. Qed.

Lemma masked_scores_length (m : DIN) (logits : list R) (l : nat) :
  length logits = max_seq_len m ->
  length (masked_scores m logits l) = max_seq_len m.
Proof.
  intros H. unfold masked_scores, key_masks.
  rewrite length_map, tf_where_length; [exact H| |apply length_map].
  rewrite sequence_mask_length. congruence.
Qed.

Lemma attention_weights_total (m : DIN) (q : list R) (keys : list (list R)) :
  length keys = max_seq_len m ->
  Forall (fun k => length k = length q) keys ->
  exists logits, attention_weights m q keys = Ok logits
                 /\ length logits = max_seq_len m.
Proof.
  intros Hn Hk. unfold attention_weights.
  destruct (queries_keys_cross_total m q keys Hk) as (cross & -> & Hlen).
  simpl. eexists. split; [reflexivity|]. rewrite length_map, Hlen. lia.
Qed.

Lemma attention_unit_total (m : DIN) (q : list R) (keys : list (list R)) (l : nat) :
  length keys = max_seq_len m ->
  Forall (fun k => length k = length q) keys ->
  exists pooled, _attention_unit m q keys l = Ok pooled.
Proof.
  intros Hn Hk. unfold _attention_unit, attention_scores.
  destruct (use_tf_attention m); [eauto|].
  destruct (attention_weights_total m q keys Hn Hk) as (logits & -> & _).
  simpl. eauto.
Qed.

(** ** The session evaluates the graph on every row of a fitted model *)

Lemma build_attention_total (m : DIN) (x : feed_row) :
  wf_model m -> row_ok m x -> exists a, _build_attention m x = Ok a.
Proof.
  intros Hm Hx. unfold _build_attention, seq_total_embed.
  destruct (seq_embed_list_total m x Hm Hx) as (parts & -> & Hlen & Hkeys). simpl.
  assert (exists q, item_total_embed m x = Ok q) as [q Hq].
  { unfold item_total_embed.
    destruct (item_embed_list_total m x Hm Hx) as [ps ->]. simpl. eauto. }
  rewrite Hq. simpl.
  apply attention_unit_total; [exact Hlen|].
  rewrite (item_total_embed_keys_dim m x q Hm Hq). exact Hkeys.
Qed.

Lemma row_feed_shape (m : DIN) (x : feed_row) :
  wf_model m -> row_ok m x -> feed_shape_ok m x = true.
Proof.
  intros Hm Hx. unfold feed_shape_ok.
  rewrite bool_decide_eq_true_2 by apply (row_seq_len _ _ Hx). simpl.
  apply andb_true_intro. split.
  - destruct (sparse m) eqn:Hs; [|reflexivity]. simpl.
    apply bool_decide_eq_true_2, (row_sparse_indices m x Hm Hx Hs).
  - destruct (dense m) eqn:Hd; [|reflexivity]. simpl.
    apply bool_decide_eq_true_2, (row_dense_values m x Hm Hx Hd).
Qed.

Lemma output_total (m : DIN) (x : feed_row) :
  wf_model m -> row_ok m x -> exists s, output m x = Ok s.
Proof.
  intros Hm Hx. unfold output, concat_embed, user_embed, item_embed.
  rewrite (embedding_lookup_in_range _ _ _ _ (row_user _ _ Hx)).
  rewrite (embedding_lookup_in_range _ _ _ _ (row_item _ _ Hx)). simpl.
  assert (exists s, (if sparse m then se ← sparse_embed m x; Ok [concat se]
                     else Ok []) = Ok s) as [s ->].
  { destruct (sparse m) eqn:Hs; [|eauto].
    destruct (sparse_embed_total m x) as [se ->]; [|simpl; eauto].
    apply (row_sparse_indices m x Hm Hx Hs). }
  simpl.
  destruct (dense m); simpl;
    destruct (build_attention_total m x Hm Hx) as [a ->]; simpl; eauto.
Qed.

Lemma sess_run_output_total (m : DIN) (feed : list feed_row) :
  wf_model m -> Forall (row_ok m) feed ->
  exists preds, sess_run_output m feed = Ok preds /\ length preds = length feed.
Proof.
  intros Hm Hfeed. unfold sess_run_output.
  destruct (mapM_total (fun x => if feed_shape_ok m x then output m x else Raise ValueError)
                       feed) as [preds Hp].
  - eapply Forall_impl; [exact Hfeed|]. intros x Hx.
    rewrite (row_feed_shape m x Hm Hx). apply output_total; assumption.
  - exists preds. split; [exact Hp | eapply mapM_Ok_length, Hp].
Qed.

(** ** What a float32 tensor stores *)

Section Float32.
Local Open Scope R_scope.

Lemma Int_part_eq (r : R) (n : Z) : IZR n <= r < IZR n + 1 -> Int_part r = n.
Proof. intros H. symmetry. apply Int_part_spec. lra. Qed.

Lemma round_half_even_below (y : R) (n : Z) :
  IZR n <= y < IZR n + 1 / 2 -> round_half_even y = n.
Proof.
  intros H. unfold round_half_even.
  rewrite (Int_part_eq y n) by lra.
  destruct (Rlt_dec (y - IZR n) (1 / 2)) as [_|Hn]; [reflexivity|lra].
Qed.

Lemma round_half_even_above (y : R) (n : Z) :
  IZR n + 1 / 2 < y < IZR n + 1 -> round_half_even y = (n + 1)%Z.
Proof.
  intros H. unfold round_half_even.
  rewrite (Int_part_eq y n) by lra.
  destruct (Rlt_dec (y - IZR n) (1 / 2)) as [Hn|_]; [lra|].
  destruct (Rlt_dec (1 / 2) (y - IZR n)) as [_|Hn]; [reflexivity|lra].
Qed.

Lemma ln_2_pos : 0 < ln 2.
Proof. rewrite <- ln_1. apply ln_increasing; lra. Qed.

Lemma ilog2_eq (x : R) (k : nat) : 2 ^ k <= Rabs x < 2 ^ (S k) -> ilog2 x = Z.of_nat k.
Proof.
  intros [Hlo Hhi]. unfold ilog2. apply Int_part_eq.
  assert (0 < 2 ^ k) as Hk by (apply pow_lt; lra).
  pose proof ln_2_pos as H2.
  assert (ln (2 ^ k) <= ln (Rabs x)) as H1.
  { destruct Hlo as [Hlo| <-]; [left; apply ln_increasing; assumption | right; reflexivity]. }
  assert (ln (Rabs x) < ln (2 ^ S k)) as H3 by (apply ln_increasing; lra).
  rewrite ln_pow in H1, H3 by lra.
  rewrite <- INR_IZR_INZ. rewrite S_INR in H3.
  split.
  - apply Rmult_le_reg_r with (ln 2); [exact H2|].
    unfold Rdiv. rewrite Rmult_assoc, Rinv_l by lra. lra.
  - apply Rmult_lt_reg_r with (ln 2); [exact H2|].
    unfold Rdiv. rewrite Rmult_assoc, Rinv_l by lra. lra.
Qed.

(** Zero is stored as zero. *)
Lemma float32_zero : float32 0 = 0.
Proof.
  unfold float32. cbv zeta.
  replace (0 / _) with 0 by (unfold Rdiv; ring).
  rewrite (round_half_even_below 0 0) by lra. ring.
Qed.

(** The stored value of a real of the binade [2^k .. 2^(k+1)]. *)
Lemma float32_binade (x : R) (k : nat) (n : Z) :
  2 ^ k <= Rabs x < 2 ^ (S k) ->
  round_half_even (x / powerRZ 2 (Z.of_nat k - 23)) = n ->
  float32 x = IZR n * powerRZ 2 (Z.of_nat k - 23).
Proof.
  intros Hk Hn. unfold float32. cbv zeta.
  rewrite (ilog2_eq x k Hk).
  replace (Z.max (Z.of_nat k) (-126)) with (Z.of_nat k) by lia.
  rewrite Hn. reflexivity.
Qed.

(** The padding tensor holds [-2**32]: the spacing of float32 at this
    magnitude is 256. *)
Lemma padding_value_eq : padding_value = - 2 ^ 32.
Proof.
  unfold padding_value.
  rewrite (float32_binade _ 31 (-16777216)).
  - change (Z.of_nat 31 - 23)%Z with 8%Z. simpl. lra.
  - rewrite Rabs_left by lra. lra.
  - change (Z.of_nat 31 - 23)%Z with 8%Z.
    apply round_half_even_below. simpl. lra.
Qed.

(** The mean [3.3333333333333335] is stored as [3.3333332538604736]. *)
Lemma float32_mean :
  float32 (7505999378950827 / 2251799813685248) = 13981013 / 4194304.
Proof.
  rewrite (float32_binade _ 1 13981013).
  - change (Z.of_nat 1 - 23)%Z with (-22)%Z. simpl. lra.
  - rewrite Rabs_right by lra. simpl. lra.
  - change (Z.of_nat 1 - 23)%Z with (-22)%Z.
    apply round_half_even_below. simpl. lra.
Qed.

End Float32.

(** ** Array updates and index sets *)

Lemma set_all_length {A} (index : list nat) (v : A) (a : list A) :
  length (set_all index v a) = length a.
Proof.
  induction index as [|j index IH]; simpl; [reflexivity|].
  rewrite length_insert. exact IH.
Qed.

Lemma set_all_lookup_in {A} (index : list nat) (v : A) (a : list A) (j : nat) :
  j ∈ index -> (j < length a)%nat -> set_all index v a !! j = Some v.
Proof.
  intros Hj Hlt. induction index as [|i index IH]; simpl; [inversion Hj|].
  destruct (decide (j = i)) as [->|Hne].
  - apply list_lookup_insert_eq. rewrite set_all_length. exact Hlt.
  - rewrite list_lookup_insert_ne by congruence.
    apply IH. apply elem_of_cons in Hj as [?|?]; [contradiction|assumption].
Qed.

Lemma set_all_lookup_notin {A} (index : list nat) (v : A) (a : list A) (j : nat) :
  j ∉ index -> set_all index v a !! j = a !! j.
Proof.
  intros Hj. induction index as [|i index IH]; simpl; [reflexivity|].
  apply not_elem_of_cons in Hj as [Hne Hj].
  rewrite list_lookup_insert_ne by congruence. apply IH, Hj.
Qed.

Lemma np_where_elem (cond : Z -> bool) (a : list Z) (j : nat) :
  j ∈ np_where cond a <-> exists v, a !! j = Some v /\ cond v = true.
Proof.
  unfold np_where. rewrite list_elem_of_filter, elem_of_seq. split.
  - intros [Hc _]. destruct (a !! j) as [v|]; simpl in Hc; [|contradiction].
    exists v. split; [reflexivity|]. apply Is_true_eq_true, Hc.
  - intros (v & Hv & Hc). split.
    + rewrite Hv. simpl. rewrite Hc. exact I.
    + apply lookup_lt_Some in Hv. lia.
Qed.

Lemma in_range_zero (n : nat) : (0 < n)%nat -> in_range 0 n = true.
Proof. intros H. apply bool_decide_eq_true_2. lia. Qed.

(** ** Unknown ids *)

Lemma check_unknown_spec (m : DIN) (user item : list Z) :
  let r := _check_unknown m user item in
  r.1.1.1 = length r.1.1.2
  /\ length r.1.2 = length user
  /\ length r.2 = length item
  /\ (forall j u, user !! j = Some u ->
                  in_range u (n_users (data_info m)) = false -> j ∈ r.1.1.2)
  /\ (forall j i, item !! j = Some i ->
                  in_range i (n_items (data_info m)) = false -> j ∈ r.1.1.2)
  /\ ((0 < n_users (data_info m))%nat -> all_in_range (n_users (data_info m)) r.1.2)
  /\ ((0 < n_items (data_info m))%nat -> all_in_range (n_items (data_info m)) r.2)
  /\ Forall (fun j => (j < Nat.max (length user) (length item))%nat) r.1.1.2.
Proof.
  unfold _check_unknown. simpl.
  set (uu := np_where (fun u => negb (in_range u (n_users (data_info m)))) user).
  set (ui := np_where (fun i => negb (in_range i (n_items (data_info m)))) item).
  split; [reflexivity|]. split; [apply set_all_length|]. split; [apply set_all_length|].
  split; [|split; [|split; [|split]]].
  - intros j u Hj Hu. apply list_elem_of_union. left.
    apply np_where_elem. exists u. rewrite Hu. auto.
  - intros j i Hj Hi. apply list_elem_of_union. right.
    apply np_where_elem. exists i. rewrite Hi. auto.
  - intros Hn. apply Forall_lookup. intros j u Hj.
    destruct (decide (j ∈ list_union uu ui)) as [Hin|Hnin].
    + rewrite set_all_lookup_in in Hj.
      * injection Hj as <-. apply in_range_zero, Hn.
      * exact Hin.
      * apply lookup_lt_Some in Hj. rewrite set_all_length in Hj. exact Hj.
    + rewrite set_all_lookup_notin in Hj by exact Hnin.
      destruct (in_range u (n_users (data_info m))) eqn:Hu; [reflexivity|].
      exfalso. apply Hnin, list_elem_of_union. left.
      apply np_where_elem. exists u. rewrite Hu. auto.
  - intros Hn. apply Forall_lookup. intros j i Hj.
    destruct (decide (j ∈ list_union uu ui)) as [Hin|Hnin].
    + rewrite set_all_lookup_in in Hj.
      * injection Hj as <-. apply in_range_zero, Hn.
      * exact Hin.
      * apply lookup_lt_Some in Hj. rewrite set_all_length in Hj. exact Hj.
    + rewrite set_all_lookup_notin in Hj by exact Hnin.
      destruct (in_range i (n_items (data_info m))) eqn:Hi; [reflexivity|].
      exfalso. apply Hnin, list_elem_of_union. right.
      apply np_where_elem. exists i. rewrite Hi. auto.
  - apply Forall_forall. intros j Hj.
    apply list_elem_of_union in Hj as [Hj|Hj];
      apply np_where_elem in Hj as (v & Hv & _); apply lookup_lt_Some in Hv; lia.
Qed.

Lemma np_getitem_in_range {A} (a : list A) (i : Z) :
  in_range i (length a) = true ->
  exists x, np_getitem a i = Ok x /\ x ∈ a.
Proof.
  intros Hi. unfold np_getitem.
  pose proof (bool_decide_eq_true_1 _ Hi) as Hr.
  replace (i <? 0)%Z with false by (symmetry; apply Z.ltb_ge; lia).
  rewrite Hi.
  destruct (lookup_lt_is_Some_2 a (Z.to_nat i)) as [x Hx]; [lia|].
  rewrite Hx. exists x. split; [reflexivity|]. eapply list_elem_of_lookup_2, Hx.
Qed.

Lemma mapM_np_getitem {A} (a : list A) (index : list Z) :
  all_in_range (length a) index ->
  exists xs, mapM (np_getitem a) index = Ok xs
             /\ length xs = length index /\ Forall (fun x => x ∈ a) xs.
Proof.
  intros H.
  destruct (mapM_total (np_getitem a) index) as [xs Hxs].
  { eapply Forall_impl; [exact H|]. intros i Hi.
    destruct (np_getitem_in_range a i Hi) as (x & Hx & _). eauto. }
  exists xs. split; [exact Hxs|]. split; [eapply mapM_Ok_length, Hxs|].
  eapply mapM_Ok_Forall; [|exact Hxs].
  intros i x Hx. unfold np_getitem in Hx.
  destruct (in_range _ _); [|discriminate].
  destruct (a !! _) as [y|] eqn:E; [|discriminate].
  injection Hx as <-. eapply list_elem_of_lookup_2, E.
Qed.

(** The rows that [_get_seq_feed_dict] builds from the columns of known
    pairs are rows of a fitted model. *)
Lemma get_seq_feed_dict_rows (m : DIN) (u_seq : list (list Z)) (u_len : list nat)
    (user item : list Z) :
  wf_model m ->
  length item = length user -> length u_seq = length user ->
  length u_len = length user ->
  all_in_range (n_users (data_info m)) user ->
  all_in_range (n_items (data_info m)) item ->
  Forall (fun row => row ∈ user_last_interacted m) u_seq ->
  exists feed,
    _get_seq_feed_dict u_seq u_len user item
      (zip_with (sparse_indices_of (data_info m)) user item)
      (zip_with (dense_values_of (data_info m)) user item) = Ok feed
    /\ length feed = length user
    /\ Forall (row_ok m) feed.
Proof.
  intros Hm Hi Hs Hl Hu Hit Hrows. unfold _get_seq_feed_dict.
  rewrite !bool_decide_eq_true_2;
    [| rewrite length_zip_with; lia | rewrite length_zip_with; lia
     | exact Hl | exact Hs | exact Hi ].
  simpl. eexists. split; [reflexivity|]. split.
  - rewrite !length_zip_with. lia.
  - apply Forall_lookup. intros j x Hx.
    apply lookup_zip_with_Some in Hx as (a & b & -> & Ha & Hb).
    apply lookup_zip_with_Some in Ha as (ui & sp & -> & Hui & Hsp).
    apply lookup_zip_with_Some in Hui as (u & i & -> & Hu' & Hi').
    apply lookup_zip_with_Some in Hb as (ds & len & -> & Hds & Hlen).
    apply lookup_zip_with_Some in Hds as (dv & row & -> & Hdv & Hrow).
    apply lookup_zip_with_Some in Hsp as (u1 & i1 & -> & Hu1 & Hi1).
    apply lookup_zip_with_Some in Hdv as (u2 & i2 & -> & Hu2 & Hi2).
    assert (u1 = u) by congruence. assert (i1 = i) by congruence.
    assert (u2 = u) by congruence. assert (i2 = i) by congruence. subst.
    rewrite Forall_lookup in Hrows. specialize (Hrows _ _ Hrow).
    pose proof (wf_sequences _ Hm) as Hseq. rewrite Forall_forall in Hseq.
    destruct (Hseq _ Hrows) as [Hlen' Hrange].
    constructor; simpl; try reflexivity; try assumption.
    + unfold all_in_range in Hu. rewrite Forall_lookup in Hu. eapply Hu, Hu'.
    + unfold all_in_range in Hit. rewrite Forall_lookup in Hit. eapply Hit, Hi'.
Qed.

(** ** [predict] returns *)

Lemma predict_returns (m : DIN) (user item : py_ids) :
  wf_model m -> length (asarray item) = length (asarray user) ->
  exists preds,
    length preds = length (asarray user)
    /\ (forall j, j ∈ (_check_unknown m (asarray user) (asarray item)).1.1.2 ->
                  (j < length (asarray user))%nat ->
                  preds !! j = Some (float32 (default_prediction m)))
    /\ predict m user item
       = if bool_decide (length (asarray user) = 1%nat)
         then p ← np_getitem preds 0; Ok (Scalar p)
         else Ok (Array preds).
Proof.
  intros Hm Hlen. unfold predict.
  pose proof (check_unknown_spec m (asarray user) (asarray item)) as Hc.
  destruct (_check_unknown m (asarray user) (asarray item)) as [[[num idx] U] I].
  simpl in Hc. destruct Hc as (Hnum & HU & HI & _ & _ & HUr & HIr & Hidx).
  specialize (HUr (wf_users _ Hm)). specialize (HIr (wf_items _ Hm)).
  unfold get_predict_indices_and_values. simpl.
  destruct (mapM_np_getitem (user_last_interacted m) U) as (u_seq & -> & Hsl & Hrows).
  { rewrite (wf_last_interacted _ Hm). exact HUr. }
  destruct (mapM_np_getitem (last_interacted_len m) U) as (u_len & -> & Hll & _).
  { rewrite (wf_interacted_len _ Hm). exact HUr. }
  simpl.
  destruct (get_seq_feed_dict_rows m u_seq u_len U I Hm) as (feed & -> & Hfl & Hfeed);
    try assumption; [congruence|].
  simpl.
  destruct (sess_run_output_total m feed Hm Hfeed) as (preds & -> & Hpl). simpl.
  assert (np_setitem idx (float32 (default_prediction m)) (map sigmoid preds)
          = Ok (set_all idx (float32 (default_prediction m)) (map sigmoid preds))) as Hset.
  { unfold np_setitem. rewrite bool_decide_eq_true_2; [reflexivity|].
    eapply Forall_impl; [exact Hidx|]. intros j Hj. simpl in Hj.
    rewrite length_map. lia. }
  set (out := if bool_decide (0 < num)%nat
              then set_all idx (float32 (default_prediction m)) (map sigmoid preds)
              else map sigmoid preds).
  assert (length out = length (asarray user)) as Hout.
  { unfold out. destruct (bool_decide _);
      rewrite ?set_all_length, length_map; congruence. }
  exists out. split; [exact Hout|]. split.
  - intros j Hj Hlt. unfold out.
    rewrite bool_decide_eq_true_2.
    + apply set_all_lookup_in; [exact Hj|]. rewrite length_map. congruence.
    + rewrite Hnum. destruct idx; [inversion Hj | simpl; lia].
  - rewrite HU, Hset. unfold out. destruct (bool_decide (0 < num)%nat); reflexivity.
Qed.

Lemma np_getitem_singleton {A} (x : A) : np_getitem [x] 0 = Ok x.
Proof. reflexivity. Qed.

Lemma predict_shape_total (m : DIN) (user item : py_ids) :
  wf_model m -> length (asarray item) = length (asarray user) ->
  exists r, predict m user item = Ok r
            /\ prediction_shape r = expected_shape (length (asarray user))
            /\ forall j, j ∈ (_check_unknown m (asarray user) (asarray item)).1.1.2 ->
                         (j < length (asarray user))%nat ->
                         prediction_at r j = Some (float32 (default_prediction m)).
Proof.
  intros Hm Hlen.
  destruct (predict_returns m user item Hm Hlen) as (preds & Hpl & Hdef & ->).
  unfold expected_shape.
  destruct (decide (length (asarray user) = 1%nat)) as [H1|H1].
  - rewrite bool_decide_eq_true_2 by exact H1.
    destruct preds as [|p [|? ?]]; simpl in Hpl; try lia.
    rewrite np_getitem_singleton. simpl. eexists. split; [reflexivity|].
    split; [reflexivity|].
    intros j Hj Hlt. assert (j = 0%nat) as -> by lia.
    specialize (Hdef _ Hj Hlt). simpl in Hdef. injection Hdef as ->. reflexivity.
  - rewrite bool_decide_eq_false_2 by exact H1.
    eexists. split; [reflexivity|]. split; [simpl; congruence|].
    intros j Hj Hlt. simpl. apply Hdef; assumption.
Qed.

(** ** The example models are fitted models *)

Lemma small_din_wf (t : string) (raw logit : R) : wf_model (small_din t raw logit).
Proof.
  constructor; simpl; try lia; try reflexivity; try discriminate.
  - repeat constructor.
  - intros u Hu. apply bool_decide_eq_true_1 in Hu.
    assert (u = 0 \/ u = 1)%Z as [-> | ->] by lia; eexists; reflexivity.
Qed.

Lemma rated_din_wf : wf_model rated_din.
Proof.
  constructor; simpl; try lia; try reflexivity; try discriminate.
  - repeat constructor.
  - intros u Hu. apply bool_decide_eq_true_1 in Hu.
    assert (u = 0 \/ u = 1)%Z as [-> | ->] by lia; eexists; reflexivity.
Qed.

Lemma featured_din_wf : wf_model featured_din.
Proof.
  constructor; simpl; try lia; try reflexivity.
  - repeat constructor.
  - intros u Hu. apply bool_decide_eq_true_1 in Hu.
    assert (u = 0 \/ u = 1)%Z as [-> | ->] by lia; eexists; reflexivity.
  - intros _ u i Hu Hi.
    apply bool_decide_eq_true_1 in Hu. apply bool_decide_eq_true_1 in Hi. simpl in *.
    split; [reflexivity|].
    repeat constructor; apply bool_decide_eq_true_2; lia.
  - intros a [= <-]. simpl. repeat split; try lia.
    + intros r c Hr _. apply bool_decide_eq_true_2. lia.
    + repeat constructor.
  - intros a [= <-]. simpl. repeat split; try lia. repeat constructor.
Qed.

(** ** Claims about [predict] *)

Lemma sigmoid_range (x : R) : (0 < sigmoid x < 1)%R.
Proof.
  unfold sigmoid. pose proof (exp_pos (- x)) as He.
  split.
  - apply Rdiv_lt_0_compat; lra.
  - apply (Rmult_lt_reg_r (1 + exp (- x))); [lra|].
    unfold Rdiv. rewrite Rmult_assoc, Rinv_l by lra. lra.
Qed.

(** C1. A model built with task "rating" whose fusion head scores every pair
    with the raw value 3: [predict] for the pair (user 1, item 1) and
    [recommend_user] for user 1 return the sigmoid of the raw score, which
    lies below 1, and not the raw score. *)
Theorem predict_rating_applies_sigmoid :
  task (small_din "rating" 3 0) = "rating"
  /\ sess_run_output (small_din "rating" 3 0)
       [{| user_indices := 1; item_indices := 1; sparse_indices := [];
           dense_values := []; user_interacted_seq := [0%Z; 1%Z];
           user_interacted_len := 2 |}] = Ok [3%R]
  /\ predict (small_din "rating" 3 0) (PyInt 1) (PyInt 1) = Ok (Scalar (sigmoid 3))
  /\ recommend_user (fun a _ => seq 0 (length a)) (small_din "rating" 3 0) 1 1
     = Ok (Some [(2%Z, sigmoid 3)])
  /\ sigmoid 3 <> 3%R.
Proof.
  split; [reflexivity|]. split; [reflexivity|]. split; [reflexivity|]. split.
  - unfold recommend_user. simpl.
    replace (user_consumed small_info !! 1%Z) with (Some [0; 1]%Z) by reflexivity.
    simpl. unfold sorted. simpl.
    repeat (destruct (Rle_dec _ _) as [?|Hn]; [|exfalso; apply Hn; lra]; simpl).
    reflexivity.
  - pose proof (sigmoid_range 3). lra.
Qed.

(** C4 as stated fails for a default that float32 does not hold: on the
    model rated with mean 3.3333333333333335, the prediction for the unknown
    user 5 is 3.3333332538604736 (13981013 / 2^22), the float32 nearest to
    the mean, and not the mean. *)
Lemma predict_unknown_user_stores_float32 :
  task rated_din = "rating"
  /\ in_range 5 (n_users (data_info rated_din)) = false
  /\ default_prediction rated_din = (7505999378950827 / 2251799813685248)%R
  /\ predict rated_din (PyInt 5) (PyInt 1) = Ok (Scalar (13981013 / 4194304)%R)
  /\ (13981013 / 4194304)%R <> default_prediction rated_din.
Proof.
  split; [reflexivity|]. split; [reflexivity|].
  assert (default_prediction rated_din = (7505999378950827 / 2251799813685248)%R)
    as Hd by reflexivity.
  split; [exact Hd|]. split.
  - rewrite <- float32_mean. reflexivity.
  - rewrite Hd. lra.
Qed.

(** C4, amended. On a fitted model whose default prediction is of a
    magnitude float32 holds, [predict] with equally long inputs that hold an
    unknown user id at position [j] returns a result of the shape every input
    of that length gets, and the prediction at position [j] is the default
    prediction as the float32 array of predictions stores it: the float32
    nearest to [global_mean] for the rating task and exactly 0 otherwise,
    whatever the paired item id. *)
Theorem predict_unknown_user_default (m : DIN) (user item : py_ids) (j : nat) (u : Z) :
  wf_model m ->
  length (asarray item) = length (asarray user) ->
  asarray user !! j = Some u ->
  in_range u (n_users (data_info m)) = false ->
  (Rabs (default_prediction m) < 2 ^ 127)%R ->
  exists r,
    predict m user item = Ok r
    /\ prediction_at r j = Some (float32 (default_prediction m))
    /\ default_prediction m
       = (if bool_decide (task m = "rating") then global_mean (data_info m) else 0%R)
    /\ (task m <> "rating" -> prediction_at r j = Some 0%R)
    /\ forall user' item',
         length (asarray user') = length (asarray user) ->
         length (asarray item') = length (asarray user') ->
         exists r', predict m user' item' = Ok r'
                    /\ prediction_shape r' = prediction_shape r.
Proof.
  intros Hm Hlen Hj Hu _.
  destruct (predict_shape_total m user item Hm Hlen) as (r & Hr & Hshape & Hdef).
  assert (prediction_at r j = Some (float32 (default_prediction m))) as Hat.
  { apply Hdef; [|eapply lookup_lt_Some, Hj].
    destruct (check_unknown_spec m (asarray user) (asarray item))
      as (_ & _ & _ & Hin & _).
    eapply Hin; eassumption. }
  exists r. split; [exact Hr|]. split; [exact Hat|]. split; [reflexivity|]. split.
  - intros Ht. rewrite Hat. unfold default_prediction.
    rewrite bool_decide_eq_false_2 by exact Ht. rewrite float32_zero. reflexivity.
  - intros user' item' Hu' Hi'.
    destruct (predict_shape_total m user' item' Hm Hi') as (r' & Hr' & Hshape' & _).
    exists r'. split; [exact Hr'|]. congruence.
Qed.

Lemma predict_unknown_user_default_witness :
  wf_model rated_din
  /\ asarray (PyArray [5%Z; 1%Z]) !! 0%nat = Some 5%Z
  /\ in_range 5 (n_users (data_info rated_din)) = false
  /\ (Rabs (default_prediction rated_din) < 2 ^ 127)%R
  /\ exists r,
       predict rated_din (PyArray [5; 1]%Z) (PyArray [1; 2]%Z) = Ok r
       /\ prediction_at r 0 = Some (float32 (7505999378950827 / 2251799813685248)).
Proof.
  assert (Rabs (default_prediction rated_din) < 2 ^ 127)%R as Hb.
  { replace (default_prediction rated_din)
      with (7505999378950827 / 2251799813685248)%R by reflexivity.
    rewrite Rabs_right by lra. lra. }
  split; [apply rated_din_wf|]. split; [reflexivity|]. split; [reflexivity|].
  split; [exact Hb|].
  destruct (predict_unknown_user_default rated_din
              (PyArray [5; 1]%Z) (PyArray [1; 2]%Z) 0 5
              rated_din_wf eq_refl eq_refl eq_refl Hb)
    as (r & Hr & Hat & _).
  exists r. split; [exact Hr | exact Hat].
Defined.

(** C6 as stated fails for arrays of length one: [predict] returns the single
    score as a scalar, not as an array of length one. *)
Lemma predict_single_pair_array_is_scalar :
  predict (small_din "ranking" 0 0) (PyArray [1%Z]) (PyArray [1%Z])
  = Ok (Scalar (sigmoid 0))
  /\ ~ (exists l, predict (small_din "ranking" 0 0) (PyArray [1%Z]) (PyArray [1%Z])
                  = Ok (Array l) /\ length l = 1%nat).
Proof.
  split; [reflexivity|].
  intros (l & Hl & _). discriminate Hl.
Qed.

(** C6, amended. On a fitted model, [predict] with two equally long id arrays
    of length M, M at least two, returns an array of length M; with two arrays
    of length one, or with two scalars, it returns a scalar. *)
Theorem predict_shape (m : DIN) :
  wf_model m ->
  (forall us its, length its = length us -> (2 <= length us)%nat ->
                 exists l, predict m (PyArray us) (PyArray its) = Ok (Array l)
                           /\ length l = length us)
  /\ (forall u i, exists p, predict m (PyArray [u]) (PyArray [i]) = Ok (Scalar p))
  /\ (forall u i, exists p, predict m (PyInt u) (PyInt i) = Ok (Scalar p)).
Proof.
  intros Hm. split; [|split].
  - intros us its Hlen Hne.
    destruct (predict_shape_total m (PyArray us) (PyArray its) Hm Hlen)
      as (r & Hr & Hshape & _).
    simpl in Hshape. unfold expected_shape in Hshape.
    destruct (decide (length us = 1%nat)); [lia|].
    destruct r as [p|l]; [discriminate|].
    exists l. split; [exact Hr|]. simpl in Hshape. congruence.
  - intros u i.
    destruct (predict_shape_total m (PyArray [u]) (PyArray [i]) Hm eq_refl)
      as (r & Hr & Hshape & _).
    destruct r as [p|l]; [eauto | discriminate].
  - intros u i.
    destruct (predict_shape_total m (PyInt u) (PyInt i) Hm eq_refl)
      as (r & Hr & Hshape & _).
    destruct r as [p|l]; [eauto | discriminate].
Qed.

Lemma predict_shape_witness :
  wf_model featured_din
  /\ (exists l, predict featured_din (PyArray [0; 7; 1]%Z) (PyArray [2; 0; -1]%Z)
                = Ok (Array l) /\ length l = 3%nat)
  /\ (exists p, predict featured_din (PyArray [1%Z]) (PyArray [2%Z]) = Ok (Scalar p))
  /\ (exists p, predict featured_din (PyInt 1) (PyInt 2) = Ok (Scalar p)).
Proof.
  split; [apply featured_din_wf|].
  destruct (predict_shape featured_din featured_din_wf) as (Harr & Hone & Hint).
  split; [|split].
  - apply (Harr [0; 7; 1]%Z [2; 0; -1]%Z); [reflexivity | simpl; lia].
  - apply Hone.
  - apply Hint.
Defined.

(** ** Claims about [recommend_user] *)

Lemma py_not_false (m : DIN) (user : Z) :
  py_not (_check_unknown_user m user) = false ->
  _check_unknown_user m user = Some user
  /\ in_range user (n_users (data_info m)) = true /\ user <> 0%Z.
Proof.
  unfold _check_unknown_user.
  destruct (in_range user (n_users (data_info m))); simpl; [|discriminate].
  intros H. apply bool_decide_eq_false_1 in H. auto.
Qed.

Lemma zip_with_replicate_map {A B C} (f : A -> B -> C) (n : nat) (x : A)
    (k : list B) :
  (length k <= n)%nat -> zip_with f (replicate n x) k = map (f x) k.
Proof.
  revert n. induction k as [|b k IH]; intros [|n] H; simpl in *; try reflexivity; try lia.
  rewrite IH by lia. reflexivity.
Qed.

(** Past the guard, [recommend_user] scores the whole catalogue and hands the
    scores to the selection step. *)
Lemma recommend_user_scores (introselect : list R -> nat -> list nat) (m : DIN)
    (user n_rec : Z) :
  wf_model m -> py_not (_check_unknown_user m user) = false ->
  exists raw,
    length raw = n_items (data_info m)
    /\ recommend_user introselect m user n_rec
       = (consumed ← match user_consumed (data_info m) !! user with
                     | Some c => Ok c
                     | None => Raise KeyError
                     end;
          recs ← select_unconsumed introselect (map sigmoid raw) consumed n_rec;
          Ok (Some recs)).
Proof.
  intros Hm Hguard. unfold recommend_user. rewrite Hguard.
  destruct (py_not_false m user Hguard) as (-> & Hu & _). simpl.
  destruct (np_getitem_in_range (user_last_interacted m) user) as (row & -> & Hrow).
  { rewrite (wf_last_interacted _ Hm). exact Hu. }
  destruct (np_getitem_in_range (last_interacted_len m) user) as (len & -> & _).
  { rewrite (wf_interacted_len _ Hm). exact Hu. }
  simpl.
  set (n := n_items (data_info m)).
  set (item := map Z.of_nat (seq 0 n)).
  assert (length item = n) as Hitem.
  { unfold item. rewrite length_map, length_seq. reflexivity. }
  rewrite <- (zip_with_replicate_map (sparse_indices_of (data_info m)) n user item) by lia.
  rewrite <- (zip_with_replicate_map (dense_values_of (data_info m)) n user item) by lia.
  destruct (get_seq_feed_dict_rows m (replicate n row) (replicate n len)
              (replicate n user) item Hm) as (feed & -> & Hfl & Hfeed).
  - rewrite length_replicate. exact Hitem.
  - rewrite !length_replicate. reflexivity.
  - rewrite !length_replicate. reflexivity.
  - apply Forall_replicate, Hu.
  - unfold item. apply Forall_map, Forall_forall. intros j Hj.
    apply elem_of_seq in Hj. apply bool_decide_eq_true_2. unfold n in Hj. lia.
  - apply Forall_replicate, Hrow.
  - simpl.
    destruct (sess_run_output_total m feed Hm Hfeed) as (raw & -> & Hraw). simpl.
    exists raw. split; [rewrite Hraw, Hfl, length_replicate; reflexivity|].
    unfold select_unconsumed.
    destruct (user_consumed (data_info m) !! user); simpl; [|reflexivity].
    destruct (argpartition _ _ _); simpl; [|reflexivity].
    destruct (mapM _ _); reflexivity.
Qed.

Lemma argpartition_out_of_bounds (introselect : list R -> nat -> list nat)
    (a : list R) (count : Z) :
  (Z.of_nat (length a) < count)%Z ->
  argpartition introselect a (- count) = Raise ValueError.
Proof.
  intros H. unfold argpartition.
  replace (- count <? 0)%Z with true by (symmetry; apply Z.ltb_lt; lia).
  unfold in_range. rewrite bool_decide_eq_false_2 by lia. reflexivity.
Qed.

(** C5. For a user id unknown to the model, [recommend_user] returns [None]
    and does not raise, whatever [n_rec] is. *)
Theorem recommend_user_unknown_user (introselect : list R -> nat -> list nat)
    (m : DIN) (user n_rec : Z) :
  in_range user (n_users (data_info m)) = false ->
  recommend_user introselect m user n_rec = Ok None.
Proof.
  intros H. unfold recommend_user, _check_unknown_user. rewrite H. reflexivity.
Qed.

Lemma recommend_user_unknown_user_witness :
  in_range 7 (n_users (data_info featured_din)) = false
  /\ recommend_user (fun a _ => seq 0 (length a)) featured_din 7 (-4) = Ok None.
Proof.
  split; [reflexivity|].
  apply (recommend_user_unknown_user _ featured_din 7 (-4)). reflexivity.
Defined.

(** C7. When [n_rec] plus the number of the user's consumed items exceeds
    the number of items, [recommend_user] returns no recommendation list, and
    for a user that passes the guard [if not user] it raises the [ValueError]
    of the partial selection, whose position [n_items - (n_rec + |consumed|)]
    is out of bounds. *)
Theorem recommend_user_raises_beyond_catalogue
    (introselect : list R -> nat -> list nat) (m : DIN) (user n_rec : Z)
    (consumed : list Z) :
  wf_model m ->
  user_consumed (data_info m) !! user = Some consumed ->
  (Z.of_nat (n_items (data_info m)) < n_rec + Z.of_nat (length consumed))%Z ->
  (forall recs, recommend_user introselect m user n_rec <> Ok (Some recs))
  /\ (py_not (_check_unknown_user m user) = false ->
      recommend_user introselect m user n_rec = Raise ValueError).
Proof.
  intros Hm Hc Hcount.
  assert (py_not (_check_unknown_user m user) = false ->
          recommend_user introselect m user n_rec = Raise ValueError) as Hraise.
  { intros Hguard.
    destruct (recommend_user_scores introselect m user n_rec Hm Hguard)
      as (raw & Hraw & ->).
    rewrite Hc. simpl. unfold select_unconsumed.
    rewrite argpartition_out_of_bounds; [reflexivity|].
    rewrite length_map, Hraw. exact Hcount. }
  split; [|exact Hraise].
  intros recs H.
  destruct (py_not (_check_unknown_user m user)) eqn:Hguard.
  - unfold recommend_user in H. rewrite Hguard in H. discriminate.
  - rewrite Hraise in H by reflexivity. discriminate.
Qed.

Lemma recommend_user_raises_beyond_catalogue_witness :
  wf_model featured_din
  /\ user_consumed (data_info featured_din) !! 1%Z = Some [0; 1]%Z
  /\ (Z.of_nat (n_items (data_info featured_din)) < 2 + Z.of_nat (length [0; 1]%Z))%Z
  /\ recommend_user (fun a _ => seq 0 (length a)) featured_din 1 2 = Raise ValueError.
Proof.
  split; [apply featured_din_wf|]. split; [reflexivity|]. split; [reflexivity|].
  apply (recommend_user_raises_beyond_catalogue _ featured_din 1 2 [0; 1]%Z
           featured_din_wf eq_refl eq_refl).
  reflexivity.
Defined.

(** C2. User 1 of the small model has consumed items 0 and 1 of a catalogue of
    three items, so a single item is left to recommend; asked for two
    recommendations, [recommend_user] raises [ValueError] where one
    recommendation is due. *)
Theorem recommend_user_raises_when_few_unconsumed
    (introselect : list R -> nat -> list nat) :
  n_items (data_info (small_din "ranking" 0 0)) = 3%nat
  /\ user_consumed (data_info (small_din "ranking" 0 0)) !! 1%Z = Some [0; 1]%Z
  /\ recommend_user introselect (small_din "ranking" 0 0) 1 2 = Raise ValueError.
Proof. repeat split. Qed.

(** ** The masked softmax *)

Section Softmax.
Local Open Scope R_scope.

Lemma lookup_map {A B} (f : A -> B) (l : list A) (j : nat) :
  map f l !! j = f <$> (l !! j).
Proof.
  revert j. induction l as [|a l IH]; intros [|j]; simpl; try reflexivity. apply IH.
Qed.

Lemma sum_list_app (xs ys : list R) :
  sum_list (xs ++ ys) = sum_list xs + sum_list ys.
Proof. induction xs as [|x xs IH]; simpl; [lra|]. rewrite IH. lra. Qed.

Lemma sum_list_map_div (xs : list R) (z : R) :
  sum_list (map (fun x => x / z) xs) = sum_list xs / z.
Proof. induction xs as [|x xs IH]; simpl; [lra|]. rewrite IH. lra. Qed.

Lemma sum_list_bounds (e : R) (ws : list R) :
  Forall (fun w => 0 <= w <= e) ws ->
  0 <= sum_list ws <= INR (length ws) * e.
Proof.
  induction 1 as [|w ws Hw _ IH].
  - simpl. lra.
  - change (sum_list (w :: ws)) with (w + sum_list ws).
    change (length (w :: ws)) with (S (length ws)). rewrite S_INR. lra.
Qed.

Lemma sum_exp_nonneg (xs : list R) : 0 <= sum_list (map exp xs).
Proof.
  induction xs as [|x xs IH]; simpl; [lra|]. pose proof (exp_pos x). lra.
Qed.

Lemma sum_exp_ge (xs : list R) (j : nat) (x : R) :
  xs !! j = Some x -> exp x <= sum_list (map exp xs).
Proof.
  revert j. induction xs as [|y xs IH]; intros [|j] H; simpl in *; try discriminate.
  - injection H as ->. pose proof (sum_exp_nonneg xs). lra.
  - pose proof (IH _ H). pose proof (exp_pos y). lra.
Qed.

Lemma sum_exp_pos (xs : list R) : xs <> [] -> 0 < sum_list (map exp xs).
Proof.
  destruct xs as [|x xs]; [congruence|]. intros _. simpl.
  pose proof (exp_pos x). pose proof (sum_exp_nonneg xs). lra.
Qed.

Lemma softmax_lookup (xs : list R) (j : nat) (x : R) :
  xs !! j = Some x ->
  softmax xs !! j = Some (exp x / sum_list (map exp xs)).
Proof. intros H. unfold softmax. rewrite lookup_map, H. reflexivity. Qed.

Lemma softmax_sum (xs : list R) : xs <> [] -> sum_list (softmax xs) = 1.
Proof.
  intros H. unfold softmax.
  rewrite <- (map_map exp (fun e => e / sum_list (map exp xs))), sum_list_map_div.
  pose proof (sum_exp_pos xs H). apply Rdiv_diag. lra.
Qed.

Lemma softmax_nonneg (xs : list R) : Forall (fun w => 0 <= w) (softmax xs).
Proof.
  unfold softmax. apply Forall_map, Forall_forall. intros x _.
  pose proof (exp_pos x). pose proof (sum_exp_nonneg xs).
  apply Rmult_le_pos; [lra|].
  destruct (Req_dec (sum_list (map exp xs)) 0) as [-> | Hne].
  - rewrite Rinv_0. lra.
  - left. apply Rinv_0_lt_compat. lra.
Qed.

Lemma sqrt_dim_pos (n : nat) : (0 < n)%nat -> 0 < sqrt (INR n).
Proof. intros H. apply sqrt_lt_R0, lt_0_INR, H. Qed.

Lemma div_no_nan_nonzero (x y : R) : y <> 0 -> div_no_nan x y = x / y.
Proof. intros H. unfold div_no_nan. destruct (Req_dec_T y 0); [contradiction | reflexivity]. Qed.

Lemma sequence_mask_lookup (l n j : nat) :
  (j < n)%nat -> sequence_mask l n !! j = Some (bool_decide (j < l)%nat).
Proof.
  intros H. unfold sequence_mask. rewrite lookup_map, lookup_seq_lt by exact H.
  reflexivity.
Qed.

Lemma tf_where_lookup (cond : list bool) (x y : list R) (j : nat) (c : bool) (a b : R) :
  cond !! j = Some c -> x !! j = Some a -> y !! j = Some b ->
  tf_where cond x y !! j = Some (if c then a else b).
Proof.
  revert x y j. induction cond as [|c' cond IH]; intros [|a' x] [|b' y] [|j];
    simpl; try discriminate.
  - intros [= ->] [= ->] [= ->]. reflexivity.
  - apply IH.
Qed.

(** The masked and scaled score of position [j]: the logit where the mask
    holds, the padding constant elsewhere. *)
Lemma masked_scores_lookup (m : DIN) (logits : list R) (l j : nat) (a : R) :
  length logits = max_seq_len m -> logits !! j = Some a ->
  masked_scores m logits l !! j
  = Some (div_no_nan (if bool_decide (j < l)%nat then a else padding_value)
                     (sqrt (INR (keys_dim m)))).
Proof.
  intros Hlen Hj. unfold masked_scores, key_masks.
  rewrite lookup_map.
  erewrite tf_where_lookup; [reflexivity| |exact Hj|].
  - apply sequence_mask_lookup. apply lookup_lt_Some in Hj. lia.
  - rewrite lookup_map, Hj. reflexivity.
Qed.

End Softmax.

(** ** Claims about the attention unit *)

Section AttentionClaims.
Local Open Scope R_scope.

Lemma sum_list_take_drop (n : nat) (w : list R) :
  sum_list w = sum_list (take n w) + sum_list (drop n w).
Proof. rewrite <- (take_drop n w) at 1. apply sum_list_app. Qed.

(** The softmax weight of a position with score [p] is at most
    [exp (p - x)] for every score [x] of the vector. *)
Lemma softmax_weight_le (xs : list R) (i j : nat) (x p : R) :
  xs !! i = Some x -> xs !! j = Some p ->
  exists w, softmax xs !! j = Some w /\ 0 <= w <= exp (p - x).
Proof.
  intros Hi Hj. exists (exp p / sum_list (map exp xs)).
  split; [apply softmax_lookup, Hj|].
  pose proof (sum_exp_ge xs i x Hi) as Hge.
  pose proof (exp_pos x) as Hx. pose proof (exp_pos p) as Hp.
  assert (0 < sum_list (map exp xs)) as Hz by lra.
  split.
  - apply Rmult_le_pos; [lra|]. left. apply Rinv_0_lt_compat, Hz.
  - unfold Rminus. rewrite exp_plus, exp_Ropp.
    apply Rmult_le_compat_l; [lra|].
    apply Rinv_le_contravar; assumption.
Qed.

(** C3 as stated fails when a valid position carries a logit as low as the
    padding constant (the attention network returns [-2**32], the value the
    padding tensor holds): with true length 1 of 2, the padding position gets
    the weight 1/2. *)
Lemma attention_padding_weight_not_negligible :
  attention_scores (small_din "ranking" 0 padding_value) [0] [[0]; [0]] 1
  = Ok [1 / 2; 1 / 2]
  /\ ~ (1 / 2 < / 1000000).
Proof.
  split; [|lra].
  unfold attention_scores, attention_weights, queries_keys_cross. simpl.
  unfold softmax, masked_scores, key_masks, sequence_mask. simpl.
  generalize (exp (div_no_nan padding_value (sqrt 1))) (exp_pos (div_no_nan padding_value (sqrt 1))).
  intros e He.
  replace (e / (e + (e + 0))) with (1 / 2) by (field; lra).
  reflexivity.
Qed.

(** C3, amended. In the non-library attention unit, with a true length [l]
    between 0 and [max_seq_len], the key mask is (position < [l]); the scaled
    score of a valid position is its logit and that of a padding position is
    the padding constant, which the float32 tensor holds as [-2**32], both
    divided by the square root of the key length.  When some valid logit [a]
    is at least [-2**31], so that float32 keeps its scaled score apart from
    that of the constant, and so far above the constant that
    [(max_seq_len - l) * exp ((-2**32 - a) / sqrt K_total) < 1e-7] (a tenfold
    margin for rounding), every padding position has an attention weight
    below 1e-6 and the weights of the valid positions sum to 1 within 1e-5. *)
Theorem attention_padding_weights (m : DIN) (q : list R) (keys : list (list R))
    (l : nat) (logits : list R) (i : nat) (a : R) :
  (0 < keys_dim m)%nat ->
  (0 < l < max_seq_len m)%nat ->
  length keys = max_seq_len m ->
  attention_weights m q keys = Ok logits ->
  logits !! i = Some a -> (i < l)%nat ->
  - 2 ^ 31 <= a ->
  INR (max_seq_len m - l) * exp ((padding_value - a) / sqrt (INR (keys_dim m)))
  < / 10000000 ->
  padding_value = - 2 ^ 32
  /\ key_masks m l = map (fun j => bool_decide (j < l)%nat) (seq 0 (max_seq_len m))
  /\ (forall j x, logits !! j = Some x ->
        masked_scores m logits l !! j
        = Some ((if bool_decide (j < l)%nat then x else padding_value)
                / sqrt (INR (keys_dim m))))
  /\ exists w,
       attention_scores m q keys l = Ok w
       /\ length w = max_seq_len m
       /\ (forall j x, w !! j = Some x -> (l <= j)%nat -> 0 <= x < / 1000000)
       /\ Rabs (sum_list (take l w) - 1) < / 100000.
Proof.
  intros HK [Hl0 Hln] Hkeys Hlog Hi Hil _ Hsmall.
  pose proof (sqrt_dim_pos _ HK) as Hsq.
  assert (length logits = max_seq_len m) as Hlen.
  { unfold attention_weights in Hlog.
    apply bind_Ok in Hlog as (cross & Hc & [= <-]).
    unfold queries_keys_cross in Hc. apply mapM_Ok_length in Hc.
    rewrite length_map, Hc, length_zip, length_replicate. lia. }
  assert (forall j x, logits !! j = Some x ->
            masked_scores m logits l !! j
            = Some ((if bool_decide (j < l)%nat then x else padding_value)
                    / sqrt (INR (keys_dim m)))) as Hscore.
  { intros j x Hj. rewrite (masked_scores_lookup m logits l j x Hlen Hj).
    rewrite div_no_nan_nonzero by lra. reflexivity. }
  split; [exact padding_value_eq|].
  split; [reflexivity|]. split; [exact Hscore|].
  unfold attention_scores. rewrite Hlog. simpl.
  set (s := masked_scores m logits l).
  assert (length s = max_seq_len m) as Hslen by (apply masked_scores_length, Hlen).
  assert (s !! i = Some (a / sqrt (INR (keys_dim m)))) as Hsi.
  { unfold s. rewrite (Hscore i a Hi), bool_decide_eq_true_2 by exact Hil. reflexivity. }
  set (eps := exp ((padding_value - a) / sqrt (INR (keys_dim m)))) in *.
  assert (1 <= INR (max_seq_len m - l)) as Hcount.
  { change 1 with (INR 1). apply le_INR. lia. }
  assert (0 < eps) as Heps by apply exp_pos.
  assert (forall j x, softmax s !! j = Some x -> (l <= j)%nat -> 0 <= x <= eps) as Hpad.
  { intros j x Hj Hlj.
    assert (j < length logits)%nat as Hjlt.
    { apply lookup_lt_Some in Hj. rewrite softmax_length, Hslen in Hj. lia. }
    destruct (lookup_lt_is_Some_2 logits j Hjlt) as [y Hy].
    assert (s !! j = Some (padding_value / sqrt (INR (keys_dim m)))) as Hsj.
    { unfold s. rewrite (Hscore j y Hy), bool_decide_eq_false_2 by lia. reflexivity. }
    destruct (softmax_weight_le s i j _ _ Hsi Hsj) as (w & Hw & Hbound).
    assert (x = w) as -> by congruence.
    replace eps with (exp (padding_value / sqrt (INR (keys_dim m))
                           - a / sqrt (INR (keys_dim m)))); [exact Hbound|].
    unfold eps. f_equal. field. lra. }
  exists (softmax s). split; [reflexivity|].
  split; [rewrite softmax_length; exact Hslen|]. split.
  - intros j x Hj Hlj. destruct (Hpad j x Hj Hlj) as [H0 H1].
    split; [exact H0|]. nra.
  - assert (s <> []) as Hne.
    { intros E. rewrite E in Hslen. simpl in Hslen. lia. }
    pose proof (softmax_sum s Hne) as Hsum.
    rewrite (sum_list_take_drop l) in Hsum.
    assert (0 <= sum_list (drop l (softmax s))
            <= INR (length (drop l (softmax s))) * eps) as Hdrop.
    { apply sum_list_bounds, Forall_lookup. intros k x Hk.
      rewrite lookup_drop in Hk. apply (Hpad _ _ Hk). lia. }
    rewrite length_drop, softmax_length, Hslen in Hdrop.
    apply Rabs_def1; lra.
Qed.

Lemma exp_padding_small : exp (padding_value - 0) < / 10000000.
Proof.
  replace (padding_value - 0) with (- (2 ^ 32)) by (rewrite padding_value_eq; lra).
  rewrite exp_Ropp.
  assert (10000000 < exp (2 ^ 32)) as H.
  { pose proof (exp_ineq1 (2 ^ 32)) as Hexp. lra. }
  apply Rinv_lt_contravar; [|exact H].
  apply Rmult_lt_0_compat; lra.
Qed.

Lemma attention_padding_weights_witness :
  (0 < keys_dim (small_din "ranking" 0 0))%nat
  /\ (0 < 1 < max_seq_len (small_din "ranking" 0 0))%nat
  /\ attention_weights (small_din "ranking" 0 0) [0] [[0]; [0]] = Ok [0; 0]
  /\ - 2 ^ 31 <= 0
  /\ INR (max_seq_len (small_din "ranking" 0 0) - 1)
     * exp ((padding_value - 0) / sqrt (INR (keys_dim (small_din "ranking" 0 0))))
     < / 10000000
  /\ exists w,
       attention_scores (small_din "ranking" 0 0) [0] [[0]; [0]] 1 = Ok w
       /\ length w = 2%nat
       /\ (forall j x, w !! j = Some x -> (1 <= j)%nat -> 0 <= x < / 1000000)
       /\ Rabs (sum_list (take 1 w) - 1) < / 100000.
Proof.
  assert (INR (max_seq_len (small_din "ranking" 0 0) - 1)
          * exp ((padding_value - 0) / sqrt (INR (keys_dim (small_din "ranking" 0 0))))
          < / 10000000) as Hsmall.
  { simpl. rewrite sqrt_1. unfold Rdiv. rewrite Rinv_1, Rmult_1_r, Rmult_1_l.
    exact exp_padding_small. }
  assert (- 2 ^ 31 <= 0) as Hlow by lra.
  split; [unfold keys_dim; simpl; lia|]. split; [simpl; lia|].
  split; [reflexivity|]. split; [exact Hlow|]. split; [exact Hsmall|].
  apply (attention_padding_weights (small_din "ranking" 0 0) [0] [[0]; [0]] 1
           [0; 0] 0%nat 0).
  - unfold keys_dim. simpl. lia.
  - simpl. lia.
  - reflexivity.
  - reflexivity.
  - reflexivity.
  - lia.
  - exact Hlow.
  - exact Hsmall.
Defined.

End AttentionClaims.

Section AllMasked.
Local Open Scope R_scope.

Lemma tf_where_all_false (start : nat) (x : list R) (c : R) :
  tf_where (map (fun i => bool_decide (i < 0)%nat) (seq start (length x)))
           x (map (fun _ => c) x)
  = replicate (length x) c.
Proof.
  revert start. induction x as [|a x IH]; intros start; simpl; [reflexivity|].
  rewrite IH. reflexivity.
Qed.

Lemma map_replicate {A B} (f : A -> B) (n : nat) (a : A) :
  map f (replicate n a) = replicate n (f a).
Proof. induction n as [|n IH]; simpl; [reflexivity|]. rewrite IH. reflexivity. Qed.

Lemma sum_list_replicate (n : nat) (c : R) : sum_list (replicate n c) = INR n * c.
Proof.
  induction n as [|n IH]; [simpl; lra|].
  change (sum_list (replicate (S n) c)) with (c + sum_list (replicate n c)).
  rewrite IH, S_INR. lra.
Qed.

Lemma softmax_replicate (n : nat) (c : R) :
  softmax (replicate n c) = replicate n (/ INR n).
Proof.
  unfold softmax. rewrite !map_replicate, sum_list_replicate.
  destruct n as [|n]; [reflexivity|]. f_equal.
  pose proof (exp_pos c). pose proof (pos_INR n). rewrite S_INR.
  field. split; lra.
Qed.

(** With true length 0 every score is the scaled padding constant. *)
Lemma masked_scores_all_masked (m : DIN) (logits : list R) :
  length logits = max_seq_len m ->
  masked_scores m logits 0
  = replicate (max_seq_len m)
              (div_no_nan padding_value (sqrt (INR (keys_dim m)))).
Proof.
  intros Hlen. unfold masked_scores, key_masks, sequence_mask.
  rewrite <- Hlen, tf_where_all_false, map_replicate. reflexivity.
Qed.

(** X15. With true length 0 every position is masked and carries one and
    the same score.  The non-library attention unit then returns: the softmax
    divides by a positive sum, every attention weight is [1 / max_seq_len],
    and the pooled context is the product of these weights with the keys, the
    mean of the key vectors. *)
Theorem attention_all_masked (m : DIN) (q : list R) (keys : list (list R)) :
  use_tf_attention m = false ->
  length keys = max_seq_len m ->
  Forall (fun k => length k = length q) keys ->
  exists logits,
    attention_weights m q keys = Ok logits
    /\ ((0 < max_seq_len m)%nat ->
        0 < sum_list (map exp (masked_scores m logits 0)))
    /\ attention_scores m q keys 0
       = Ok (replicate (max_seq_len m) (/ INR (max_seq_len m)))
    /\ _attention_unit m q keys 0
       = Ok (matmul_row (keys_dim m)
                        (replicate (max_seq_len m) (/ INR (max_seq_len m))) keys)
    /\ length (matmul_row (keys_dim m)
                          (replicate (max_seq_len m) (/ INR (max_seq_len m))) keys)
       = keys_dim m.
Proof.
  intros Hlib Hkeys Hq.
  destruct (attention_weights_total m q keys Hkeys Hq) as (logits & Hlog & Hlen).
  exists logits. split; [exact Hlog|].
  assert (attention_scores m q keys 0
          = Ok (replicate (max_seq_len m) (/ INR (max_seq_len m)))) as Hw.
  { unfold attention_scores. rewrite Hlog. simpl.
    rewrite (masked_scores_all_masked m logits Hlen), softmax_replicate.
    reflexivity. }
  split; [|split; [exact Hw|split]].
  - intros Hn. apply sum_exp_pos.
    rewrite (masked_scores_all_masked m logits Hlen).
    destruct (max_seq_len m); [lia | discriminate].
  - unfold _attention_unit. rewrite Hlib, Hw. reflexivity.
  - unfold matmul_row. rewrite length_map, length_seq. reflexivity.
Qed.

Lemma attention_all_masked_witness :
  use_tf_attention featured_din = false
  /\ length [[1; 2; 3; 4; 5; 6]; [0; 0; 0; 0; 2; 2]] = max_seq_len featured_din
  /\ _attention_unit featured_din [1; 1; 1; 1; 1; 1]
       [[1; 2; 3; 4; 5; 6]; [0; 0; 0; 0; 2; 2]] 0
     = Ok (matmul_row 6 [/ 2; / 2] [[1; 2; 3; 4; 5; 6]; [0; 0; 0; 0; 2; 2]]).
Proof.
  split; [reflexivity|]. split; [reflexivity|].
  destruct (attention_all_masked featured_din [1; 1; 1; 1; 1; 1]
              [[1; 2; 3; 4; 5; 6]; [0; 0; 0; 0; 2; 2]] eq_refl eq_refl)
    as (logits & _ & _ & _ & Hunit & _).
  - repeat constructor.
  - exact Hunit.
Defined.

End AllMasked.

(** ** What [recommend_user] returns when it returns a list *)

Section Selection.
Local Open Scope R_scope.

Lemma insert_by_elem {A} (key : A -> R) (x y : A) (l : list A) :
  y ∈ insert_by key x l -> y = x \/ y ∈ l.
Proof.
  induction l as [|z l IH]; simpl.
  - intros H. apply list_elem_of_singleton in H. auto.
  - destruct (Rle_dec (key x) (key z)).
    + intros H. apply elem_of_cons in H as [?|?]; auto.
    + intros H. apply elem_of_cons in H as [->|H]; [right; left|].
      destruct (IH H) as [?|?]; [auto | right; right; assumption].
Qed.

Lemma insert_by_sorted {A} (key : A -> R) (x : A) (l : list A) :
  StronglySorted (fun a b => key a <= key b) l ->
  StronglySorted (fun a b => key a <= key b) (insert_by key x l).
Proof.
  induction 1 as [|z l Hs IH Hz]; simpl.
  - repeat constructor.
  - destruct (Rle_dec (key x) (key z)) as [Hle|Hgt].
    + constructor; [constructor; assumption|].
      constructor; [exact Hle|].
      eapply Forall_impl; [exact Hz|]. simpl. intros b Hb. lra.
    + constructor; [exact IH|].
      apply Forall_forall. intros b Hb.
      destruct (insert_by_elem key x b l Hb) as [->|Hin]; [lra|].
      rewrite Forall_forall in Hz. apply Hz, Hin.
Qed.

Lemma sorted_sorted {A} (key : A -> R) (l : list A) :
  StronglySorted (fun a b => key a <= key b) (sorted key l).
Proof.
  induction l as [|x l IH]; simpl; [constructor | apply insert_by_sorted, IH].
Qed.

Lemma filter_strongly_sorted {A} (R : A -> A -> Prop) (P : A -> Prop)
    `{!forall a, Decision (P a)} (l : list A) :
  StronglySorted R l -> StronglySorted R (filter P l).
Proof.
  induction 1 as [|x l Hs IH Hx]; [constructor|].
  rewrite filter_cons. destruct (decide (P x)); [|exact IH].
  constructor; [exact IH|].
  apply Forall_forall. intros y Hy. apply list_elem_of_filter in Hy as [_ Hy].
  rewrite Forall_forall in Hx. apply Hx, Hy.
Qed.

Lemma take_strongly_sorted {A} (R : A -> A -> Prop) (n : nat) (l : list A) :
  StronglySorted R l -> StronglySorted R (take n l).
Proof.
  intros H. revert n. induction H as [|x l Hs IH Hx]; intros [|n]; simpl;
    try constructor; [apply IH | apply Forall_take, Hx].
Qed.

Lemma strongly_sorted_impl {A} (R1 R2 : A -> A -> Prop) (l : list A) :
  (forall x y, R1 x y -> R2 x y) -> StronglySorted R1 l -> StronglySorted R2 l.
Proof.
  intros HR. induction 1 as [|x l Hs IH Hx]; constructor; [exact IH|].
  eapply Forall_impl; [exact Hx|]. intros y. apply HR.
Qed.

(** The recommendations that the selection step returns hold no consumed
    item, are at most [n_rec], and are in descending order of score. *)
Lemma select_unconsumed_spec (introselect : list R -> nat -> list nat)
    (recos : list R) (consumed : list Z) (n_rec : Z) (recs : list (Z * R)) :
  select_unconsumed introselect recos consumed n_rec = Ok recs ->
  Forall (fun rec => rec.1 ∉ consumed) recs
  /\ (Z.of_nat (length recs) <= n_rec)%Z
  /\ descending recs.
Proof.
  unfold select_unconsumed. intros H.
  apply bind_Ok in H as (part & _ & H).
  apply bind_Ok in H as (scores & _ & H).
  unfold islice in H. destruct (n_rec <? 0)%Z eqn:Hn; [discriminate|].
  injection H as <-. apply Z.ltb_ge in Hn.
  split; [|split].
  - apply Forall_take, Forall_forall. intros rec Hrec.
    apply list_elem_of_filter in Hrec as [Hrec _]. exact Hrec.
  - rewrite length_take. lia.
  - apply take_strongly_sorted, filter_strongly_sorted.
    eapply strongly_sorted_impl; [|apply (sorted_sorted (fun x : Z * R => - x.2))].
    simpl. intros x y Hxy. lra.
Qed.

Lemma select_unconsumed_total (introselect : list R -> nat -> list nat)
    (recos : list R) (consumed : list Z) (n_rec : Z) :
  valid_order introselect ->
  (0 <= n_rec)%Z -> (0 < length recos)%nat ->
  (n_rec + Z.of_nat (length consumed) <= Z.of_nat (length recos))%Z ->
  exists recs, select_unconsumed introselect recos consumed n_rec = Ok recs.
Proof.
  intros Hvalid Hn Hpos Hcount. unfold select_unconsumed, argpartition.
  set (count := (n_rec + Z.of_nat (length consumed))%Z) in *.
  set (k := if (- count <? 0)%Z then (- count + Z.of_nat (length recos))%Z
            else (- count)%Z).
  assert (in_range k (length recos) = true) as ->.
  { apply bool_decide_eq_true_2. unfold k.
    destruct (- count <? 0)%Z eqn:E; [apply Z.ltb_lt in E | apply Z.ltb_ge in E];
      unfold count in *; clear k count; lia. }
  simpl.
  destruct (mapM_total (fun j : nat => np_getitem recos (Z.of_nat j))
              (slice_from (introselect recos (Z.to_nat k)) (- count))) as [scores ->].
  - unfold slice_from. apply Forall_drop.
    eapply Forall_impl; [apply Hvalid|]. intros j Hj.
    destruct (np_getitem_in_range recos (Z.of_nat j)) as (x & -> & _); [|eauto].
    apply bool_decide_eq_true_2. simpl in Hj. clear -Hj. lia.
  - simpl. unfold islice.
    replace (n_rec <? 0)%Z with false by (symmetry; apply Z.ltb_ge; lia).
    eauto.
Qed.

(** On a fitted model and for a user past the guard, [recommend_user] returns
    a list whenever [n_rec] is not negative and [n_rec] plus the number of
    consumed items does not exceed the number of items; the list holds no
    consumed item, at most [n_rec] entries, in descending order of score. *)
Lemma recommend_user_returns (introselect : list R -> nat -> list nat) (m : DIN)
    (user n_rec : Z) (consumed : list Z) :
  valid_order introselect -> wf_model m ->
  py_not (_check_unknown_user m user) = false ->
  user_consumed (data_info m) !! user = Some consumed ->
  (0 <= n_rec)%Z ->
  (n_rec + Z.of_nat (length consumed) <= Z.of_nat (n_items (data_info m)))%Z ->
  exists recs,
    recommend_user introselect m user n_rec = Ok (Some recs)
    /\ Forall (fun rec => rec.1 ∉ consumed) recs
    /\ (Z.of_nat (length recs) <= n_rec)%Z
    /\ descending recs.
Proof.
  intros Hvalid Hm Hguard Hc Hn Hcount.
  destruct (recommend_user_scores introselect m user n_rec Hm Hguard)
    as (raw & Hraw & ->).
  rewrite Hc. simpl.
  destruct (select_unconsumed_total introselect (map sigmoid raw) consumed n_rec)
    as [recs Hrecs]; try assumption.
  - rewrite length_map, Hraw. apply (wf_items _ Hm).
  - rewrite length_map, Hraw. exact Hcount.
  - rewrite Hrecs. simpl. exists recs. split; [reflexivity|].
    eapply select_unconsumed_spec, Hrecs.
Qed.

End Selection.

(** ** The composite embedding of an example row *)

Lemma featured_row_ok : row_ok featured_din featured_row.
Proof. constructor; try reflexivity. repeat constructor. Qed.


(** * Further properties of the drivers and of the graph *)

(** ** The row and the score of every position of [predict] *)

Lemma np_getitem_lookup {A} (a : list A) (i : Z) (x : A) :
  (0 <= i)%Z -> np_getitem a i = Ok x -> a !! Z.to_nat i = Some x.
Proof.
  intros Hi. unfold np_getitem.
  replace (i <? 0)%Z with false by (symmetry; apply Z.ltb_ge; lia).
  destruct (in_range i (length a)); [|discriminate].
  destruct (a !! Z.to_nat i); [|discriminate]. congruence.
Qed.

Lemma in_range_nonneg (i : Z) (n : nat) : in_range i n = true -> (0 <= i)%Z.
Proof. intros H. apply bool_decide_eq_true_1 in H. lia. Qed.

Lemma get_seq_feed_dict_lookup (u_seq : list (list Z)) (u_len : list nat)
    (user item : list Z) (sp : list (list Z)) (dv : list (list R))
    (feed : list feed_row) (j : nat) (x : feed_row) :
  _get_seq_feed_dict u_seq u_len user item sp dv = Ok feed ->
  feed !! j = Some x ->
  exists u i s d q l,
    user !! j = Some u /\ item !! j = Some i /\ sp !! j = Some s
    /\ dv !! j = Some d /\ u_seq !! j = Some q /\ u_len !! j = Some l
    /\ x = {| user_indices := u; item_indices := i; sparse_indices := s;
              dense_values := d; user_interacted_seq := q;
              user_interacted_len := l |}.
Proof.
  unfold _get_seq_feed_dict. destruct (_ && _); [|discriminate].
  intros [= <-] Hx.
  apply lookup_zip_with_Some in Hx as (a & b & -> & Ha & Hb).
  apply lookup_zip_with_Some in Ha as (ui & s & -> & Hui & Hs).
  apply lookup_zip_with_Some in Hui as (u & i & -> & Hu & Hi).
  apply lookup_zip_with_Some in Hb as (dq & l & -> & Hdq & Hl).
  apply lookup_zip_with_Some in Hdq as (d & q & -> & Hd & Hq).
  exists u, i, s, d, q, l. simpl. repeat split; assumption.
Qed.

Lemma sess_run_output_lookup (m : DIN) (feed : list feed_row) (raws : list R)
    (j : nat) (x : feed_row) :
  sess_run_output m feed = Ok raws -> feed !! j = Some x ->
  exists raw, raws !! j = Some raw /\ output m x = Ok raw.
Proof.
  unfold sess_run_output. intros H Hx. apply mapM_Ok in H.
  destruct (Forall2_lookup_l _ _ _ _ _ H Hx) as (raw & Hraw & Hout).
  exists raw. split; [exact Hraw|].
  destruct (feed_shape_ok m x); [exact Hout | discriminate].
Qed.

Lemma mapM_Ok_lookup {A B} (f : A -> result B) (l : list A) (ys : list B)
    (j : nat) (x : A) :
  mapM f l = Ok ys -> l !! j = Some x -> exists y, ys !! j = Some y /\ f x = Ok y.
Proof. intros H Hx. apply mapM_Ok in H. exact (Forall2_lookup_l _ _ _ _ _ H Hx). Qed.

Lemma check_unknown_index (m : DIN) (user item : list Z) (j : nat) :
  j ∈ (_check_unknown m user item).1.1.2 ->
  (exists u, user !! j = Some u /\ in_range u (n_users (data_info m)) = false)
  \/ (exists i, item !! j = Some i /\ in_range i (n_items (data_info m)) = false).
Proof.
  unfold _check_unknown. simpl. intros H.
  apply list_elem_of_union in H as [H|H]; apply np_where_elem in H as (v & Hv & Hc);
    [left | right]; exists v; (split; [exact Hv|]);
    destruct (in_range v _); [discriminate | reflexivity | discriminate | reflexivity].
Qed.

(** Every position of what [predict] computes: the default prediction where
    the user or the item is unknown, the sigmoid of the graph's output on the
    row of the pair elsewhere. *)
Lemma predict_values (m : DIN) (user item : py_ids) :
  wf_model m -> length (asarray item) = length (asarray user) ->
  exists preds,
    length preds = length (asarray user)
    /\ predict m user item
       = (if bool_decide (length (asarray user) = 1%nat)
          then p ← np_getitem preds 0; Ok (Scalar p)
          else Ok (Array preds))
    /\ forall j u i,
         asarray user !! j = Some u -> asarray item !! j = Some i ->
         if in_range u (n_users (data_info m)) && in_range i (n_items (data_info m))
         then exists raw, output m (row_of m u i) = Ok raw
                          /\ preds !! j = Some (sigmoid raw)
         else preds !! j = Some (float32 (default_prediction m)).
Proof.
  intros Hm Hlen. unfold predict.
  pose proof (check_unknown_spec m (asarray user) (asarray item)) as Hc.
  pose proof (check_unknown_index m (asarray user) (asarray item)) as Hci.
  destruct (_check_unknown m (asarray user) (asarray item)) as [[[num idx] U] I] eqn:Echk.
  simpl in Hc, Hci. destruct Hc as (Hnum & HU & HI & Hiu & Hii & HUr & HIr & Hidx).
  specialize (HUr (wf_users _ Hm)). specialize (HIr (wf_items _ Hm)).
  assert (U = set_all idx 0%Z (asarray user) /\ I = set_all idx 0%Z (asarray item))
    as [EU EI].
  { unfold _check_unknown in Echk. injection Echk as _ <- <- <-. split; reflexivity. }
  unfold get_predict_indices_and_values. simpl.
  destruct (mapM_np_getitem (user_last_interacted m) U) as (u_seq & Hseq & Hsl & Hrows).
  { rewrite (wf_last_interacted _ Hm). exact HUr. }
  destruct (mapM_np_getitem (last_interacted_len m) U) as (u_len & Hlens & Hll & _).
  { rewrite (wf_interacted_len _ Hm). exact HUr. }
  rewrite Hseq, Hlens. simpl.
  destruct (get_seq_feed_dict_rows m u_seq u_len U I Hm) as (feed & Hfeed & Hfl & Hrok);
    try assumption; [congruence|].
  rewrite Hfeed. simpl.
  destruct (sess_run_output_total m feed Hm Hrok) as (raws & Hraws & Hpl).
  rewrite Hraws. simpl.
  assert (np_setitem idx (float32 (default_prediction m)) (map sigmoid raws)
          = Ok (set_all idx (float32 (default_prediction m)) (map sigmoid raws))) as Hset.
  { unfold np_setitem. rewrite bool_decide_eq_true_2; [reflexivity|].
    eapply Forall_impl; [exact Hidx|]. intros j Hj. simpl in Hj.
    rewrite length_map. lia. }
  set (out := if bool_decide (0 < num)%nat
              then set_all idx (float32 (default_prediction m)) (map sigmoid raws)
              else map sigmoid raws).
  assert (length out = length (asarray user)) as Hout.
  { unfold out. destruct (bool_decide _);
      rewrite ?set_all_length, length_map; congruence. }
  exists out. split; [exact Hout|]. split.
  { rewrite HU, Hset. unfold out. destruct (bool_decide (0 < num)%nat); reflexivity. }
  intros j u i Hu Hi.
  assert (j < length (asarray user))%nat as Hj by (eapply lookup_lt_Some, Hu).
  destruct (in_range u (n_users (data_info m))) eqn:Eu;
    [destruct (in_range i (n_items (data_info m))) eqn:Ei|]; simpl.
  - assert (j ∉ idx) as Hnin.
    { intros Hin. destruct (Hci j Hin) as [(u' & Hu' & Hf)|(i' & Hi' & Hf)]; congruence. }
    assert (U !! j = Some u) as HUj by (rewrite EU, set_all_lookup_notin; assumption).
    assert (I !! j = Some i) as HIj by (rewrite EI, set_all_lookup_notin; assumption).
    destruct (lookup_lt_is_Some_2 feed j) as [x Hx]; [lia|].
    destruct (get_seq_feed_dict_lookup _ _ _ _ _ _ _ _ _ Hfeed Hx)
      as (u' & i' & s & d & q & l & Hu' & Hi' & Hs & Hd & Hq & Hl & ->).
    assert (u' = u) as -> by congruence. assert (i' = i) as -> by congruence.
    apply lookup_zip_with_Some in Hs as (u1 & i1 & -> & Hu1 & Hi1).
    apply lookup_zip_with_Some in Hd as (u2 & i2 & -> & Hu2 & Hi2).
    assert (u1 = u) as -> by congruence. assert (i1 = i) as -> by congruence.
    assert (u2 = u) as -> by congruence. assert (i2 = i) as -> by congruence.
    destruct (mapM_Ok_lookup _ _ _ _ _ Hseq HUj) as (q' & Hq' & Hgq).
    destruct (mapM_Ok_lookup _ _ _ _ _ Hlens HUj) as (l' & Hl' & Hgl).
    assert (q' = q) as -> by congruence. assert (l' = l) as -> by congruence.
    apply np_getitem_lookup in Hgq; [|eapply in_range_nonneg, Eu].
    apply np_getitem_lookup in Hgl; [|eapply in_range_nonneg, Eu].
    destruct (sess_run_output_lookup m feed raws j _ Hraws Hx) as (raw & Hraw & Houtput).
    exists raw. split.
    + unfold row_of. rewrite Hgq, Hgl. exact Houtput.
    + unfold out. destruct (bool_decide (0 < num)%nat).
      * rewrite set_all_lookup_notin by exact Hnin. rewrite lookup_map, Hraw. reflexivity.
      * rewrite lookup_map, Hraw. reflexivity.
  - assert (j ∈ idx) as Hin by (eapply Hii; eassumption).
    unfold out. rewrite bool_decide_eq_true_2.
    + apply set_all_lookup_in; [exact Hin|]. rewrite length_map. lia.
    + rewrite Hnum. destruct idx; [inversion Hin | simpl; lia].
  - assert (j ∈ idx) as Hin by (eapply Hiu; eassumption).
    unfold out. rewrite bool_decide_eq_true_2.
    + apply set_all_lookup_in; [exact Hin|]. rewrite length_map. lia.
    + rewrite Hnum. destruct idx; [inversion Hin | simpl; lia].
Qed.

Lemma predict_position (m : DIN) (user item : py_ids) (j : nat) (u i : Z) :
  wf_model m -> length (asarray item) = length (asarray user) ->
  asarray user !! j = Some u -> asarray item !! j = Some i ->
  exists r,
    predict m user item = Ok r
    /\ if in_range u (n_users (data_info m)) && in_range i (n_items (data_info m))
       then exists raw, output m (row_of m u i) = Ok raw
                        /\ prediction_at r j = Some (sigmoid raw)
       else prediction_at r j = Some (float32 (default_prediction m)).
Proof.
  intros Hm Hlen Hu Hi.
  destruct (predict_values m user item Hm Hlen) as (preds & Hpl & -> & Hval).
  specialize (Hval j u i Hu Hi).
  assert (j < length (asarray user))%nat as Hj by (eapply lookup_lt_Some, Hu).
  destruct (decide (length (asarray user) = 1%nat)) as [H1|H1].
  - rewrite bool_decide_eq_true_2 by exact H1.
    destruct preds as [|p [|? ?]]; simpl in Hpl; try lia.
    rewrite np_getitem_singleton. simpl. eexists. split; [reflexivity|].
    assert (j = 0%nat) as -> by lia. simpl. exact Hval.
  - rewrite bool_decide_eq_false_2 by exact H1.
    eexists. split; [reflexivity|]. simpl. exact Hval.
Qed.

(** X1. On a fitted model, the prediction of [predict] for a pair of known
    ids is the sigmoid of the graph's output on the row of that pair, a value
    of the interval from 0 to 1 (ends included), whatever the task and
    whatever the other positions of the input hold. *)
Theorem predict_known_pair (m : DIN) (user item : py_ids) (j : nat) (u i : Z) :
  wf_model m -> length (asarray item) = length (asarray user) ->
  asarray user !! j = Some u -> asarray item !! j = Some i ->
  in_range u (n_users (data_info m)) = true ->
  in_range i (n_items (data_info m)) = true ->
  exists raw r,
    output m (row_of m u i) = Ok raw
    /\ predict m user item = Ok r
    /\ prediction_at r j = Some (sigmoid raw)
    /\ (0 <= sigmoid raw <= 1)%R.
Proof.
  intros Hm Hlen Hu Hi Eu Ei.
  destruct (predict_position m user item j u i Hm Hlen Hu Hi) as (r & Hr & Hval).
  rewrite Eu, Ei in Hval. simpl in Hval. destruct Hval as (raw & Hraw & Hat).
  exists raw, r. pose proof (sigmoid_range raw) as Hs.
  repeat split; try assumption; lra.
Qed.

Lemma predict_known_pair_witness :
  wf_model featured_din
  /\ asarray (PyArray [9; 1]%Z) !! 1%nat = Some 1%Z
  /\ asarray (PyArray [0; 2]%Z) !! 1%nat = Some 2%Z
  /\ exists raw r,
       output featured_din (row_of featured_din 1 2) = Ok raw
       /\ predict featured_din (PyArray [9; 1]%Z) (PyArray [0; 2]%Z) = Ok r
       /\ prediction_at r 1 = Some (sigmoid raw)
       /\ (0 <= sigmoid raw <= 1)%R.
Proof.
  split; [apply featured_din_wf|]. split; [reflexivity|]. split; [reflexivity|].
  apply (predict_known_pair featured_din (PyArray [9; 1]%Z) (PyArray [0; 2]%Z) 1 1 2
           featured_din_wf); reflexivity.
Defined.

(** X2. On a fitted model, the prediction at a position of an array call is
    the prediction of the scalar call for the pair at that position: a pair is
    scored the same alone and in a batch. *)
Theorem predict_batch_consistent (m : DIN) (us its : list Z) (j : nat) (u i : Z) :
  wf_model m -> length its = length us ->
  us !! j = Some u -> its !! j = Some i ->
  exists p r,
    predict m (PyInt u) (PyInt i) = Ok (Scalar p)
    /\ predict m (PyArray us) (PyArray its) = Ok r
    /\ prediction_at r j = Some p.
Proof.
  intros Hm Hlen Hu Hi.
  destruct (predict_position m (PyArray us) (PyArray its) j u i Hm Hlen Hu Hi)
    as (r & Hr & Hval).
  destruct (predict_position m (PyInt u) (PyInt i) 0 u i Hm eq_refl eq_refl eq_refl)
    as (r1 & Hr1 & Hval1).
  assert (exists p, r1 = Scalar p) as [p ->].
  { destruct (predict_shape_total m (PyInt u) (PyInt i) Hm eq_refl) as (r' & Hr' & Hs & _).
    assert (r' = r1) as -> by congruence.
    destruct r1 as [p|l]; [eauto | discriminate]. }
  exists p, r. split; [exact Hr1|]. split; [exact Hr|].
  destruct (in_range u (n_users (data_info m)) && in_range i (n_items (data_info m))).
  - destruct Hval as (raw & Hraw & Hat). destruct Hval1 as (raw1 & Hraw1 & Hat1).
    simpl in Hat1. congruence.
  - simpl in Hval1. congruence.
Qed.

Lemma predict_batch_consistent_witness :
  wf_model featured_din
  /\ exists p r,
       predict featured_din (PyInt 1) (PyInt 0) = Ok (Scalar p)
       /\ predict featured_din (PyArray [0; 1; 5]%Z) (PyArray [2; 0; 1]%Z) = Ok r
       /\ prediction_at r 1 = Some p.
Proof.
  split; [apply featured_din_wf|].
  apply (predict_batch_consistent featured_din [0; 1; 5]%Z [2; 0; 1]%Z 1 1 0
           featured_din_wf); reflexivity.
Defined.

(** X3. On a fitted model whose default prediction is of a magnitude
    float32 holds, [predict] gives at every position whose item id is unknown
    the default prediction as the float32 array of predictions stores it
    (exactly 0 when the task is not rating), whatever the paired user id. *)
Theorem predict_unknown_item_default (m : DIN) (user item : py_ids) (j : nat)
    (u i : Z) :
  wf_model m -> length (asarray item) = length (asarray user) ->
  asarray user !! j = Some u -> asarray item !! j = Some i ->
  in_range i (n_items (data_info m)) = false ->
  (Rabs (default_prediction m) < 2 ^ 127)%R ->
  exists r, predict m user item = Ok r
            /\ prediction_at r j = Some (float32 (default_prediction m))
            /\ (task m <> "rating" -> prediction_at r j = Some 0%R).
Proof.
  intros Hm Hlen Hu Hi Ei _.
  destruct (predict_position m user item j u i Hm Hlen Hu Hi) as (r & Hr & Hval).
  rewrite Ei, andb_false_r in Hval.
  exists r. split; [exact Hr|]. split; [exact Hval|].
  intros Ht. rewrite Hval. unfold default_prediction.
  rewrite bool_decide_eq_false_2 by exact Ht. rewrite float32_zero. reflexivity.
Qed.

Lemma predict_unknown_item_default_witness :
  wf_model rated_din
  /\ in_range (-1) (n_items (data_info rated_din)) = false
  /\ (Rabs (default_prediction rated_din) < 2 ^ 127)%R
  /\ exists r, predict rated_din (PyInt 1) (PyInt (-1)) = Ok r
               /\ prediction_at r 0
                  = Some (float32 (7505999378950827 / 2251799813685248))
               /\ (task rated_din <> "rating" -> prediction_at r 0 = Some 0%R).
Proof.
  assert (Rabs (default_prediction rated_din) < 2 ^ 127)%R as Hb.
  { replace (default_prediction rated_din)
      with (7505999378950827 / 2251799813685248)%R by reflexivity.
    rewrite Rabs_right by lra. lra. }
  split; [apply rated_din_wf|]. split; [reflexivity|]. split; [exact Hb|].
  apply (predict_unknown_item_default rated_din (PyInt 1) (PyInt (-1)) 0 1 (-1)
           rated_din_wf eq_refl eq_refl eq_refl eq_refl Hb).
Defined.

(** ** The selection step in detail *)

Section SelectionDetail.
Local Open Scope R_scope.

Lemma map_is_fmap {A B} (f : A -> B) (l : list A) : map f l = f <$> l.
Proof. induction l as [|a l IH]; simpl; [reflexivity|]. rewrite IH. reflexivity. Qed.

Lemma insert_by_perm {A} (key : A -> R) (x : A) (l : list A) :
  insert_by key x l ≡ₚ x :: l.
Proof.
  induction l as [|y l IH]; simpl; [reflexivity|].
  destruct (Rle_dec (key x) (key y)); [reflexivity|].
  rewrite IH. apply Permutation_swap.
Qed.

Lemma sorted_perm {A} (key : A -> R) (l : list A) : sorted key l ≡ₚ l.
Proof.
  induction l as [|x l IH]; simpl; [reflexivity|].
  rewrite insert_by_perm, IH. reflexivity.
Qed.

Lemma strongly_sorted_lookup {A} (Rel : A -> A -> Prop) (l : list A) (i j : nat)
    (x y : A) :
  StronglySorted Rel l -> (i < j)%nat -> l !! i = Some x -> l !! j = Some y ->
  Rel x y.
Proof.
  intros Hs. revert i j. induction Hs as [|z l Hs IH Hz]; intros i j Hij Hi Hj.
  - discriminate.
  - destruct j as [|j]; [lia|]. destruct i as [|i]; simpl in *.
    + injection Hi as <-. rewrite Forall_forall in Hz.
      apply Hz. eapply list_elem_of_lookup_2, Hj.
    + apply (IH i j); [lia | assumption | assumption].
Qed.

Lemma filter_complement_length {A} (P : A -> Prop) `{!forall a, Decision (P a)}
    (l : list A) :
  (length (filter P l) + length (filter (fun a => ~ P a) l) = length l)%nat.
Proof.
  induction l as [|a l IH]; [reflexivity|].
  rewrite !filter_cons. destruct (decide (P a)), (decide (~ P a)); simpl; try lia;
    contradiction.
Qed.

(** What a successful selection step computed: the indices kept and their
    scores. *)
Lemma select_unconsumed_Ok (introselect : list R -> nat -> list nat)
    (recos : list R) (consumed : list Z) (n_rec : Z) (recs : list (Z * R)) :
  select_unconsumed introselect recos consumed n_rec = Ok recs ->
  exists kz ids scores,
    in_range kz (length recos) = true
    /\ kz = (let count := (n_rec + Z.of_nat (length consumed))%Z in
             if (- count <? 0)%Z then - count + Z.of_nat (length recos) else - count)%Z
    /\ ids = slice_from (introselect recos (Z.to_nat kz))
                        (- (n_rec + Z.of_nat (length consumed)))
    /\ (0 <= n_rec)%Z
    /\ mapM (fun j : nat => np_getitem recos (Z.of_nat j)) ids = Ok scores
    /\ recs = take (Z.to_nat n_rec)
                (filter (fun rec : Z * R => rec.1 ∉ consumed)
                   (sorted (fun x : Z * R => - x.2)
                      (zip (map Z.of_nat ids) scores))).
Proof.
  unfold select_unconsumed, argpartition, islice. intros H.
  destruct (in_range _ (length recos)) eqn:Hk; [|discriminate].
  simpl in H. apply bind_Ok in H as (scores & Hscores & H).
  destruct (n_rec <? 0)%Z eqn:Hn; [discriminate|]. injection H as <-.
  apply Z.ltb_ge in Hn.
  eexists _, _, scores. split; [exact Hk|]. split; [reflexivity|].
  split; [reflexivity|]. split; [exact Hn|]. split; [exact Hscores | reflexivity].
Qed.

(** When the selection order keeps the length of the array, the indices kept
    are the part of the order from the partition position on, and they are at
    least [n_rec] plus the number of consumed items. *)
Lemma slice_from_partition (part : list nat) (n : nat) (n_rec : Z) (c : nat) (kz : Z) :
  length part = n -> (0 <= n_rec)%Z ->
  kz = (if (- (n_rec + Z.of_nat c) <? 0)%Z
        then - (n_rec + Z.of_nat c) + Z.of_nat n else - (n_rec + Z.of_nat c))%Z ->
  in_range kz n = true ->
  slice_from part (- (n_rec + Z.of_nat c)) = drop (Z.to_nat kz) part
  /\ (n_rec + Z.of_nat c <= Z.of_nat (n - Z.to_nat kz))%Z.
Proof.
  intros Hlen Hn Hkz Hk. apply bool_decide_eq_true_1 in Hk.
  unfold slice_from. rewrite Hlen.
  destruct (- (n_rec + Z.of_nat c) <? 0)%Z eqn:E;
    [apply Z.ltb_lt in E | apply Z.ltb_ge in E]; subst kz.
  - split; [f_equal; lia | lia].
  - split; [f_equal; lia | lia].
Qed.

Lemma zip_ids_scores_elem (ids : list nat) (scores : list R) (recos : list R)
    (i : Z) (s : R) :
  mapM (fun j : nat => np_getitem recos (Z.of_nat j)) ids = Ok scores ->
  (i, s) ∈ zip (map Z.of_nat ids) scores ->
  exists j t, ids !! j = Some t /\ i = Z.of_nat t /\ recos !! t = Some s.
Proof.
  intros Hs Hin. apply list_elem_of_lookup_1 in Hin as [j Hj].
  apply lookup_zip_with_Some in Hj as (i' & s' & [= -> ->] & Hi & Hs').
  rewrite lookup_map in Hi.
  destruct (ids !! j) as [t|] eqn:Ht; [|discriminate]. injection Hi as <-.
  destruct (mapM_Ok_lookup _ _ _ _ _ Hs Ht) as (s0 & Hs0 & Hget).
  assert (s0 = s') as -> by congruence.
  apply np_getitem_lookup in Hget; [|lia]. rewrite Nat2Z.id in Hget.
  exists j, t. auto.
Qed.

(** Every recommendation is an index kept by the selection with its own
    score, and not a consumed item. *)
Lemma select_unconsumed_elem (introselect : list R -> nat -> list nat)
    (recos : list R) (consumed : list Z) (n_rec : Z) (recs : list (Z * R))
    (i : Z) (s : R) :
  select_unconsumed introselect recos consumed n_rec = Ok recs ->
  (i, s) ∈ recs ->
  exists t, i = Z.of_nat t /\ recos !! t = Some s /\ i ∉ consumed.
Proof.
  intros H Hin.
  destruct (select_unconsumed_Ok _ _ _ _ _ H)
    as (kz & ids & scores & _ & _ & _ & _ & Hscores & ->).
  apply elem_of_take in Hin as (j & Hj & _).
  apply list_elem_of_lookup_2 in Hj.
  apply list_elem_of_filter in Hj as [Hnc Hj]. simpl in Hnc.
  rewrite sorted_perm in Hj.
  destruct (zip_ids_scores_elem _ _ _ _ _ Hscores Hj) as (j' & t & _ & -> & Ht).
  exists t. auto.
Qed.

End SelectionDetail.

(** ** The scores of [recommend_user] *)

(** Past the guard, the score array of [recommend_user] holds at position
    [t] the graph's output on the row of the pair (user, item [t]). *)
Lemma recommend_user_rows (introselect : list R -> nat -> list nat) (m : DIN)
    (user n_rec : Z) :
  wf_model m -> py_not (_check_unknown_user m user) = false ->
  exists raw,
    length raw = n_items (data_info m)
    /\ (forall t r, raw !! t = Some r ->
                    output m (row_of m user (Z.of_nat t)) = Ok r)
    /\ recommend_user introselect m user n_rec
       = (consumed ← match user_consumed (data_info m) !! user with
                     | Some c => Ok c
                     | None => Raise KeyError
                     end;
          recs ← select_unconsumed introselect (map sigmoid raw) consumed n_rec;
          Ok (Some recs)).
Proof.
  intros Hm Hguard. unfold recommend_user. rewrite Hguard.
  destruct (py_not_false m user Hguard) as (-> & Hu & _). simpl.
  destruct (np_getitem_in_range (user_last_interacted m) user) as (row & Hgrow & Hrow).
  { rewrite (wf_last_interacted _ Hm). exact Hu. }
  destruct (np_getitem_in_range (last_interacted_len m) user) as (len & Hglen & _).
  { rewrite (wf_interacted_len _ Hm). exact Hu. }
  rewrite Hgrow, Hglen. simpl.
  apply np_getitem_lookup in Hgrow; [|eapply in_range_nonneg, Hu].
  apply np_getitem_lookup in Hglen; [|eapply in_range_nonneg, Hu].
  set (n := n_items (data_info m)).
  set (item := map Z.of_nat (seq 0 n)).
  assert (length item = n) as Hitem.
  { unfold item. rewrite length_map, length_seq. reflexivity. }
  rewrite <- (zip_with_replicate_map (sparse_indices_of (data_info m)) n user item) by lia.
  rewrite <- (zip_with_replicate_map (dense_values_of (data_info m)) n user item) by lia.
  destruct (get_seq_feed_dict_rows m (replicate n row) (replicate n len)
              (replicate n user) item Hm) as (feed & Hfeed & Hfl & Hrok).
  - rewrite length_replicate. exact Hitem.
  - rewrite !length_replicate. reflexivity.
  - rewrite !length_replicate. reflexivity.
  - apply Forall_replicate, Hu.
  - unfold item. apply Forall_map, Forall_forall. intros j Hj.
    apply elem_of_seq in Hj. apply bool_decide_eq_true_2. unfold n in Hj. lia.
  - apply Forall_replicate, Hrow.
  - rewrite Hfeed. simpl.
    destruct (sess_run_output_total m feed Hm Hrok) as (raw & Hraw & Hrl).
    rewrite Hraw. simpl.
    exists raw. split; [rewrite Hrl, Hfl, length_replicate; reflexivity|]. split.
    + intros t r Ht.
      assert (t < n)%nat as Htn.
      { apply lookup_lt_Some in Ht. rewrite Hrl, Hfl, length_replicate in Ht. exact Ht. }
      destruct (lookup_lt_is_Some_2 feed t) as [x Hx];
        [rewrite Hfl, length_replicate; exact Htn|].
      destruct (sess_run_output_lookup m feed raw t x Hraw Hx) as (r' & Hr' & Hout).
      assert (r' = r) as -> by congruence.
      destruct (get_seq_feed_dict_lookup _ _ _ _ _ _ _ _ _ Hfeed Hx)
        as (u' & i' & s & d & q & l & Hu' & Hi' & Hs & Hd & Hq & Hl & ->).
      apply lookup_replicate in Hu' as [-> _].
      apply lookup_replicate in Hq as [-> _].
      apply lookup_replicate in Hl as [-> _].
      unfold item in Hi'. rewrite lookup_map, lookup_seq_lt in Hi' by exact Htn.
      simpl in Hi'. injection Hi' as <-.
      apply lookup_zip_with_Some in Hs as (u1 & i1 & -> & Hu1 & Hi1).
      apply lookup_zip_with_Some in Hd as (u2 & i2 & -> & Hu2 & Hi2).
      apply lookup_replicate in Hu1 as [-> _].
      apply lookup_replicate in Hu2 as [-> _].
      unfold item in Hi1, Hi2.
      rewrite lookup_map, lookup_seq_lt in Hi1 by exact Htn.
      rewrite lookup_map, lookup_seq_lt in Hi2 by exact Htn.
      simpl in Hi1, Hi2. injection Hi1 as <-. injection Hi2 as <-.
      unfold row_of. rewrite Hgrow, Hglen. exact Hout.
    + unfold select_unconsumed.
      destruct (user_consumed (data_info m) !! user); simpl; [|reflexivity].
      destruct (argpartition _ _ _); simpl; [|reflexivity].
      destruct (mapM _ _); reflexivity.
Qed.

(** The scalar [predict] of a known pair is the sigmoid of the graph's output
    on the row of the pair. *)
Lemma predict_scalar_known (m : DIN) (u i : Z) (raw : R) :
  wf_model m ->
  in_range u (n_users (data_info m)) = true ->
  in_range i (n_items (data_info m)) = true ->
  output m (row_of m u i) = Ok raw ->
  predict m (PyInt u) (PyInt i) = Ok (Scalar (sigmoid raw)).
Proof.
  intros Hm Eu Ei Hraw.
  destruct (predict_position m (PyInt u) (PyInt i) 0 u i Hm eq_refl eq_refl eq_refl)
    as (r & Hr & Hval).
  rewrite Eu, Ei in Hval. simpl in Hval. destruct Hval as (raw' & Hraw' & Hat).
  assert (raw' = raw) as -> by congruence.
  destruct (predict_shape_total m (PyInt u) (PyInt i) Hm eq_refl) as (r' & Hr' & Hs & _).
  assert (r' = r) as -> by congruence.
  destruct r as [p|l]; [|discriminate]. simpl in Hat. congruence.
Qed.

Lemma recommend_user_Some_guard (introselect : list R -> nat -> list nat) (m : DIN)
    (user n_rec : Z) (recs : list (Z * R)) :
  recommend_user introselect m user n_rec = Ok (Some recs) ->
  py_not (_check_unknown_user m user) = false.
Proof.
  unfold recommend_user. destruct (py_not _); [discriminate | reflexivity].
Qed.

(** X4. On a fitted model, every pair that [recommend_user] returns holds an
    item id of the catalogue that the user has not consumed, together with
    the score [predict] gives that user and item. *)
Theorem recommend_user_scores_are_predictions
    (introselect : list R -> nat -> list nat) (m : DIN) (user n_rec : Z)
    (consumed : list Z) (recs : list (Z * R)) :
  wf_model m ->
  user_consumed (data_info m) !! user = Some consumed ->
  recommend_user introselect m user n_rec = Ok (Some recs) ->
  Forall (fun rec : Z * R =>
            in_range (fst rec) (n_items (data_info m)) = true
            /\ (fst rec ∉ consumed)
            /\ predict m (PyInt user) (PyInt (fst rec)) = Ok (Scalar (snd rec)))
         recs.
Proof.
  intros Hm Hc Hrecs.
  pose proof (recommend_user_Some_guard _ _ _ _ _ Hrecs) as Hguard.
  destruct (recommend_user_rows introselect m user n_rec Hm Hguard)
    as (raw & Hrl & Hrows & Heq).
  rewrite Heq, Hc in Hrecs. simpl in Hrecs.
  apply bind_Ok in Hrecs as (recs' & Hsel & [= ->]).
  apply Forall_forall. intros [i s] Hin.
  destruct (select_unconsumed_elem _ _ _ _ _ i s Hsel Hin) as (t & -> & Ht & Hnc).
  rewrite lookup_map in Ht.
  destruct (raw !! t) as [r|] eqn:Hr; [|discriminate]. injection Ht as <-.
  assert (in_range (Z.of_nat t) (n_items (data_info m)) = true) as Hrange.
  { apply bool_decide_eq_true_2. apply lookup_lt_Some in Hr. lia. }
  simpl. split; [exact Hrange|]. split; [exact Hnc|].
  apply predict_scalar_known; [exact Hm | | exact Hrange | apply Hrows, Hr].
  apply (py_not_false m user Hguard).
Qed.

(** ** The selection step under numpy's contract *)

Section PartitionOrder.
Local Open Scope R_scope.
Context (introselect : list R -> nat -> list nat).
Context (Hpart : partition_order introselect).

Lemma partition_order_length (a : list R) (k : nat) :
  (k < length a)%nat -> length (introselect a k) = length a.
Proof.
  intros Hk. destruct (Hpart a k Hk) as [Hperm _].
  rewrite (Permutation_length Hperm), length_seq. reflexivity.
Qed.

Lemma partition_order_valid (a : list R) (k : nat) :
  (k < length a)%nat -> Forall (fun j => (j < length a)%nat) (introselect a k).
Proof.
  intros Hk. destruct (Hpart a k Hk) as [Hperm _].
  apply Forall_forall. intros j Hj. rewrite Hperm in Hj.
  apply elem_of_seq in Hj. lia.
Qed.

Lemma select_unconsumed_total_partition (recos : list R) (consumed : list Z)
    (n_rec : Z) :
  (0 <= n_rec)%Z -> (0 < length recos)%nat ->
  (n_rec + Z.of_nat (length consumed) <= Z.of_nat (length recos))%Z ->
  exists recs, select_unconsumed introselect recos consumed n_rec = Ok recs.
Proof.
  intros Hn Hpos Hcount. unfold select_unconsumed, argpartition.
  set (kz := if (- (n_rec + Z.of_nat (length consumed)) <? 0)%Z
             then (- (n_rec + Z.of_nat (length consumed)) + Z.of_nat (length recos))%Z
             else (- (n_rec + Z.of_nat (length consumed)))%Z).
  assert (0 <= kz < Z.of_nat (length recos))%Z as Hk.
  { unfold kz. destruct (- _ <? 0)%Z eqn:E;
      [apply Z.ltb_lt in E | apply Z.ltb_ge in E]; clear kz; lia. }
  assert (in_range kz (length recos) = true) as -> by (apply bool_decide_eq_true_2, Hk).
  simpl.
  destruct (mapM_total (fun j : nat => np_getitem recos (Z.of_nat j))
              (slice_from (introselect recos (Z.to_nat kz))
                          (- (n_rec + Z.of_nat (length consumed))))) as [scores ->].
  - unfold slice_from. apply Forall_drop.
    eapply Forall_impl; [apply partition_order_valid; clear -Hk; lia|].
    intros j Hj. simpl in Hj.
    destruct (np_getitem_in_range recos (Z.of_nat j)) as (x & -> & _); [|eauto].
    apply bool_decide_eq_true_2. clear -Hj. lia.
  - simpl. unfold islice.
    replace (n_rec <? 0)%Z with false by (symmetry; apply Z.ltb_ge; lia).
    eauto.
Qed.

(** Under the contract, the indices kept are the order from the partition
    position [k] on. *)
Lemma select_unconsumed_partition (recos : list R) (consumed : list Z) (n_rec : Z)
    (recs : list (Z * R)) :
  select_unconsumed introselect recos consumed n_rec = Ok recs ->
  exists k scores,
    (k < length recos)%nat
    /\ (0 <= n_rec)%Z
    /\ (n_rec + Z.of_nat (length consumed) <= Z.of_nat (length recos - k))%Z
    /\ mapM (fun j : nat => np_getitem recos (Z.of_nat j))
            (drop k (introselect recos k)) = Ok scores
    /\ recs = take (Z.to_nat n_rec)
                (filter (fun rec : Z * R => rec.1 ∉ consumed)
                   (sorted (fun x : Z * R => - x.2)
                      (zip (map Z.of_nat (drop k (introselect recos k))) scores))).
Proof.
  intros H.
  destruct (select_unconsumed_Ok _ _ _ _ _ H)
    as (kz & ids & scores & Hk & Hkz & Hids & Hn & Hscores & Hrecs).
  pose proof (in_range_to_nat _ _ Hk) as Hklt.
  destruct (slice_from_partition (introselect recos (Z.to_nat kz)) (length recos)
              n_rec (length consumed) kz) as [Hslice Hcount];
    [apply partition_order_length, Hklt | exact Hn | exact Hkz | exact Hk |].
  rewrite Hslice in Hids. subst ids.
  exists (Z.to_nat kz), scores. repeat split; assumption.
Qed.

Lemma nodup_kept_ids (recos : list R) (k : nat) :
  (k < length recos)%nat -> NoDup (drop k (introselect recos k)).
Proof.
  intros Hk. eapply sublist_NoDup; [|apply sublist_drop].
  destruct (Hpart recos k Hk) as [Hperm _]. rewrite Hperm. apply NoDup_seq.
Qed.

Lemma fst_zip_ids (ids : list nat) (scores : list R) :
  length scores = length ids ->
  (zip (map Z.of_nat ids) scores).*1 = Z.of_nat <$> ids.
Proof.
  intros Hlen. rewrite (map_is_fmap Z.of_nat ids). apply fst_zip.
  rewrite length_fmap. lia.
Qed.

(** Under the contract, the selection returns exactly [n_rec] pairs, with
    pairwise different item ids. *)
Lemma select_unconsumed_exact (recos : list R) (consumed : list Z) (n_rec : Z)
    (recs : list (Z * R)) :
  select_unconsumed introselect recos consumed n_rec = Ok recs ->
  length recs = Z.to_nat n_rec /\ NoDup (map fst recs).
Proof.
  intros H.
  destruct (select_unconsumed_partition _ _ _ _ H)
    as (k & scores & Hk & Hn & Hcount & Hscores & ->).
  set (ids := drop k (introselect recos k)) in *.
  set (zipped := zip (map Z.of_nat ids) scores).
  set (rank := sorted (fun x : Z * R => - x.2) zipped).
  pose proof (mapM_Ok_length _ _ _ Hscores) as Hsl.
  assert (length ids = (length recos - k)%nat) as Hil.
  { unfold ids. rewrite length_drop, partition_order_length by exact Hk. reflexivity. }
  assert (NoDup (rank.*1)) as Hnd.
  { unfold rank. rewrite sorted_perm. unfold zipped. rewrite fst_zip_ids by exact Hsl.
    apply NoDup_fmap_2; [intros x y; apply Nat2Z.inj | apply nodup_kept_ids, Hk]. }
  assert (length rank = (length recos - k)%nat) as Hrl.
  { unfold rank. rewrite (Permutation_length (sorted_perm _ _)).
    unfold zipped. rewrite length_zip, length_map. lia. }
  pose proof (filter_complement_length (fun rec : Z * R => rec.1 ∉ consumed) rank) as Hsum.
  cbv beta in Hsum.
  assert (length (filter (fun rec : Z * R => ~ (rec.1 ∉ consumed)) rank)
          <= length consumed)%nat as Hbad.
  { rewrite <- (length_fmap fst (filter _ rank)).
    apply submseteq_length, NoDup_submseteq.
    - refine (sublist_NoDup _ _ Hnd _). apply fmap_sublist, sublist_filter.
    - intros i Hi. apply list_elem_of_fmap in Hi as ([i' s] & -> & Hin).
      apply list_elem_of_filter in Hin as [Hc _]. simpl in *.
      destruct (decide (i' ∈ consumed)); [assumption | contradiction]. }
  split.
  - rewrite length_take. lia.
  - rewrite (map_is_fmap fst). refine (sublist_NoDup _ _ Hnd _).
    apply fmap_sublist. etransitivity; [apply sublist_take | apply sublist_filter].
Qed.

(** Under the contract, no item left out is better than an item returned:
    an un-consumed index that is not returned has a score at most that of
    every returned pair. *)
Lemma select_unconsumed_top (recos : list R) (consumed : list Z) (n_rec : Z)
    (recs : list (Z * R)) (t : nat) (st : R) :
  select_unconsumed introselect recos consumed n_rec = Ok recs ->
  recos !! t = Some st -> Z.of_nat t ∉ consumed ->
  (forall s, (Z.of_nat t, s) ∉ recs) ->
  Forall (fun rec : Z * R => st <= rec.2) recs.
Proof.
  intros H Ht Hnc Hout.
  destruct (select_unconsumed_partition _ _ _ _ H)
    as (k & scores & Hk & Hn & Hcount & Hscores & Hrecs).
  set (p := introselect recos k) in *.
  set (zipped := zip (map Z.of_nat (drop k p)) scores) in *.
  set (filtered := filter (fun rec : Z * R => rec.1 ∉ consumed)
                          (sorted (fun x : Z * R => - x.2) zipped)) in *.
  destruct (Hpart recos k Hk) as [Hperm Hord]. fold p in Hperm, Hord.
  assert (t ∈ p) as Htp.
  { rewrite Hperm. apply elem_of_seq. apply lookup_lt_Some in Ht. lia. }
  apply list_elem_of_lookup_1 in Htp as [a Ha].
  apply Forall_forall. intros [i s] Hin. simpl.
  rewrite Hrecs in Hin. apply elem_of_take in Hin as (b & Hb & Hbn).
  assert ((i, s) ∈ zipped) as Hz.
  { apply list_elem_of_lookup_2 in Hb. apply list_elem_of_filter in Hb as [_ Hb].
    rewrite sorted_perm in Hb. exact Hb. }
  destruct (zip_ids_scores_elem _ _ _ _ _ Hscores Hz) as (j' & t' & Hj' & -> & Ht').
  rewrite lookup_drop in Hj'.
  destruct (decide (a < k)%nat) as [Hlt|Hge].
  - apply (Hord a (k + j')%nat t t' st s); try assumption; lia.
  - assert ((Z.of_nat t, st) ∈ filtered) as Hf.
    { apply list_elem_of_filter. split; [exact Hnc|]. rewrite sorted_perm.
      assert (drop k p !! (a - k)%nat = Some t) as Hd.
      { rewrite lookup_drop. rewrite <- Ha. f_equal. lia. }
      destruct (mapM_Ok_lookup _ _ _ _ _ Hscores Hd) as (s0 & Hs0 & Hget).
      apply np_getitem_lookup in Hget; [|lia]. rewrite Nat2Z.id in Hget.
      assert (s0 = st) as -> by congruence.
      unfold zipped. eapply list_elem_of_lookup_2.
      apply lookup_zip_with_Some. exists (Z.of_nat t), st.
      split; [reflexivity|]. split; [|exact Hs0].
      rewrite lookup_map, Hd. reflexivity. }
    apply list_elem_of_lookup_1 in Hf as [c Hc].
    assert (Z.to_nat n_rec <= c)%nat as Hcn.
    { destruct (decide (Z.to_nat n_rec <= c)%nat) as [?|Hlt]; [assumption|].
      exfalso. apply (Hout st). rewrite Hrecs. apply elem_of_take.
      exists c. split; [exact Hc | lia]. }
    assert (- s <= - st) as Hle.
    { apply (strongly_sorted_lookup (fun x y : Z * R => - x.2 <= - y.2) filtered b c
               (Z.of_nat t', s) (Z.of_nat t, st)); [|lia|exact Hb|exact Hc].
      apply filter_strongly_sorted, (sorted_sorted (fun x : Z * R => - x.2)). }
    lra.
Qed.

End PartitionOrder.

(** ** A selection order that meets the contract *)

Lemma argsort_partition_order : partition_order argsort.
Proof.
  intros a k Hk. unfold argsort. split; [apply sorted_perm|].
  intros i j x y sx sy Hik Hkj Hi Hj Hx Hy.
  pose proof (strongly_sorted_lookup
                (fun u v : nat => (nth u a 0 <= nth v a 0)%R) _ i j x y
                (sorted_sorted (fun u : nat => nth u a 0%R) (seq 0 (length a)))
                ltac:(lia) Hi Hj) as Hle.
  simpl in Hle. rewrite !nth_lookup, Hx, Hy in Hle. exact Hle.
Qed.

Lemma argsort_valid_order : valid_order argsort.
Proof.
  intros a k. unfold argsort. apply Forall_forall. intros j Hj.
  rewrite sorted_perm in Hj. apply elem_of_seq in Hj. lia.
Qed.

(** ** Further properties of [recommend_user] *)

(** X5. On a fitted model and for a user past the guard, when the selection
    order meets numpy's contract, [n_rec] is not negative and [n_rec] plus
    the number of consumed items does not exceed the number of items,
    [recommend_user] returns exactly [n_rec] pairs, with pairwise different
    item ids. *)
Theorem recommend_user_exact (introselect : list R -> nat -> list nat) (m : DIN)
    (user n_rec : Z) (consumed : list Z) :
  partition_order introselect -> wf_model m ->
  py_not (_check_unknown_user m user) = false ->
  user_consumed (data_info m) !! user = Some consumed ->
  (0 <= n_rec)%Z ->
  (n_rec + Z.of_nat (length consumed) <= Z.of_nat (n_items (data_info m)))%Z ->
  exists recs,
    recommend_user introselect m user n_rec = Ok (Some recs)
    /\ length recs = Z.to_nat n_rec
    /\ NoDup (map fst recs).
Proof.
  intros Hpart Hm Hguard Hc Hn Hcount.
  destruct (recommend_user_rows introselect m user n_rec Hm Hguard)
    as (raw & Hrl & _ & ->).
  rewrite Hc. simpl.
  destruct (select_unconsumed_total_partition introselect Hpart
              (map sigmoid raw) consumed n_rec) as [recs Hrecs]; try assumption.
  - rewrite length_map, Hrl. apply (wf_items _ Hm).
  - rewrite length_map, Hrl. exact Hcount.
  - rewrite Hrecs. simpl. exists recs. split; [reflexivity|].
    eapply select_unconsumed_exact; eassumption.
Qed.


Lemma recommend_user_exact_witness :
  partition_order argsort
  /\ wf_model featured_din
  /\ py_not (_check_unknown_user featured_din 1) = false
  /\ user_consumed (data_info featured_din) !! 1%Z = Some [0; 1]%Z
  /\ exists recs,
       recommend_user argsort featured_din 1 1 = Ok (Some recs)
       /\ length recs = 1%nat
       /\ NoDup (map fst recs).
Proof.
  split; [apply argsort_partition_order|]. split; [apply featured_din_wf|].
  split; [reflexivity|]. split; [reflexivity|].
  apply (recommend_user_exact argsort featured_din 1 1 [0; 1]%Z
           argsort_partition_order featured_din_wf eq_refl eq_refl).
  - lia.
  - simpl. lia.
Defined.

(** X6. On a fitted model, when the selection order meets numpy's contract,
    the list [recommend_user] returns holds the best un-consumed items: an
    item of the catalogue that the user has not consumed and that is not
    returned has a [predict] score at most that of every returned pair. *)
Theorem recommend_user_top (introselect : list R -> nat -> list nat) (m : DIN)
    (user n_rec : Z) (consumed : list Z) (recs : list (Z * R)) (t : Z) (p : R) :
  partition_order introselect -> wf_model m ->
  user_consumed (data_info m) !! user = Some consumed ->
  recommend_user introselect m user n_rec = Ok (Some recs) ->
  in_range t (n_items (data_info m)) = true ->
  t ∉ consumed ->
  (forall s, (t, s) ∉ recs) ->
  predict m (PyInt user) (PyInt t) = Ok (Scalar p) ->
  Forall (fun rec : Z * R => (p <= snd rec)%R) recs.
Proof.
  intros Hpart Hm Hc Hrecs Ht Hnc Hout Hp.
  pose proof (recommend_user_Some_guard _ _ _ _ _ Hrecs) as Hguard.
  destruct (recommend_user_rows introselect m user n_rec Hm Hguard)
    as (raw & Hrl & Hrows & Heq).
  rewrite Heq, Hc in Hrecs. simpl in Hrecs.
  apply bind_Ok in Hrecs as (recs' & Hsel & [= ->]).
  pose proof (in_range_to_nat _ _ Ht) as Htn.
  pose proof (in_range_nonneg _ _ Ht) as Ht0.
  destruct (lookup_lt_is_Some_2 raw (Z.to_nat t)) as [r Hr]; [lia|].
  pose proof (Hrows _ _ Hr) as Hout_t. rewrite Z2Nat.id in Hout_t by exact Ht0.
  rewrite (predict_scalar_known m user t r Hm (proj1 (proj2 (py_not_false m user Hguard)))
             Ht Hout_t) in Hp.
  injection Hp as <-.
  apply (select_unconsumed_top introselect Hpart (map sigmoid raw) consumed n_rec
           recs (Z.to_nat t) (sigmoid r) Hsel).
  - rewrite lookup_map, Hr. reflexivity.
  - rewrite Z2Nat.id by exact Ht0. exact Hnc.
  - rewrite Z2Nat.id by exact Ht0. exact Hout.
Qed.

Lemma shop_din_wf : wf_model shop_din.
Proof.
  constructor; simpl; try lia; try reflexivity; try discriminate.
  - repeat constructor.
  - intros u Hu. apply bool_decide_eq_true_1 in Hu.
    assert (u = 0 \/ u = 1)%Z as [-> | ->] by lia; eexists; reflexivity.
Qed.

Lemma predict_scalar_total (m : DIN) (u i : Z) :
  wf_model m -> exists p, predict m (PyInt u) (PyInt i) = Ok (Scalar p).
Proof.
  intros Hm.
  destruct (predict_shape_total m (PyInt u) (PyInt i) Hm eq_refl) as (r & Hr & Hs & _).
  destruct r as [p|l]; [eauto | discriminate].
Qed.

Lemma recommend_user_top_witness :
  partition_order argsort
  /\ wf_model shop_din
  /\ user_consumed (data_info shop_din) !! 1%Z = Some [0%Z]
  /\ exists recs t p,
       recommend_user argsort shop_din 1 1 = Ok (Some recs)
       /\ in_range t (n_items (data_info shop_din)) = true
       /\ (t ∉ [0%Z])
       /\ (forall s, (t, s) ∉ recs)
       /\ predict shop_din (PyInt 1) (PyInt t) = Ok (Scalar p)
       /\ Forall (fun rec : Z * R => (p <= snd rec)%R) recs.
Proof.
  split; [apply argsort_partition_order|]. split; [apply shop_din_wf|].
  split; [reflexivity|].
  destruct (recommend_user_returns argsort shop_din 1 1 [0%Z]
              argsort_valid_order shop_din_wf eq_refl eq_refl)
    as (recs & Hrecs & _ & Hlen & _); [lia | simpl; lia |].
  assert (exists t, in_range t (n_items (data_info shop_din)) = true
                    /\ (t ∉ [0%Z]) /\ forall s0, (t, s0) ∉ recs)
    as (t & Ht & Hnc & Hout).
  { destruct recs as [|[i s] [|? ?]]; [| |simpl in Hlen; lia].
    - exists 1%Z. split; [reflexivity|]. split.
      + intros H. apply list_elem_of_singleton in H. discriminate.
      + intros s0 H. inversion H.
    - destruct (decide (i = 1%Z)) as [->|Hne].
      + exists 2%Z. split; [reflexivity|]. split.
        * intros H. apply list_elem_of_singleton in H. discriminate.
        * intros s0 H. apply list_elem_of_singleton in H. discriminate.
      + exists 1%Z. split; [reflexivity|]. split.
        * intros H. apply list_elem_of_singleton in H. discriminate.
        * intros s0 H. apply list_elem_of_singleton in H. congruence. }
  destruct (predict_scalar_total shop_din 1 t shop_din_wf) as [p Hp].
  exists recs, t, p. repeat split; try assumption.
  exact (recommend_user_top argsort shop_din 1 1 [0%Z] recs t p
           argsort_partition_order shop_din_wf eq_refl Hrecs Ht Hnc Hout Hp).
Defined.

Lemma recommend_user_scores_are_predictions_witness :
  wf_model featured_din
  /\ user_consumed (data_info featured_din) !! 1%Z = Some [0; 1]%Z
  /\ exists recs,
       recommend_user argsort featured_din 1 1 = Ok (Some recs)
       /\ Forall (fun rec : Z * R =>
                    in_range (fst rec) (n_items (data_info featured_din)) = true
                    /\ (fst rec ∉ [0; 1]%Z)
                    /\ predict featured_din (PyInt 1) (PyInt (fst rec))
                       = Ok (Scalar (snd rec)))
                 recs.
Proof.
  split; [apply featured_din_wf|]. split; [reflexivity|].
  destruct (recommend_user_returns argsort featured_din 1 1 [0; 1]%Z
              argsort_valid_order featured_din_wf eq_refl eq_refl)
    as (recs & Hrecs & _); [lia | simpl; lia |].
  exists recs. split; [exact Hrecs|].
  exact (recommend_user_scores_are_predictions argsort featured_din 1 1 [0; 1]%Z recs
           featured_din_wf eq_refl Hrecs).
Defined.

(** X8. [recommend_user] returns [None] for the user id 0, known to the model
    or not: the guard [if not user] takes the integer 0 for a missing user. *)
Theorem recommend_user_user_zero (introselect : list R -> nat -> list nat)
    (m : DIN) (n_rec : Z) :
  recommend_user introselect m 0 n_rec = Ok None.
Proof.
  unfold recommend_user, _check_unknown_user.
  destruct (in_range 0 (n_users (data_info m))); reflexivity.
Qed.

(** X9. On a fitted model and for a user past the guard, a negative [n_rec]
    makes [recommend_user] raise [ValueError], from the partial selection or
    from [islice]. *)
Theorem recommend_user_negative (introselect : list R -> nat -> list nat)
    (m : DIN) (user n_rec : Z) (consumed : list Z) :
  valid_order introselect -> wf_model m ->
  py_not (_check_unknown_user m user) = false ->
  user_consumed (data_info m) !! user = Some consumed ->
  (n_rec < 0)%Z ->
  recommend_user introselect m user n_rec = Raise ValueError.
Proof.
  intros Hvalid Hm Hguard Hc Hn.
  destruct (recommend_user_scores introselect m user n_rec Hm Hguard)
    as (raw & Hrl & ->).
  rewrite Hc. simpl. unfold select_unconsumed, argpartition.
  destruct (in_range _ (length (map sigmoid raw))); [|reflexivity].
  simpl.
  destruct (mapM_total (fun j : nat => np_getitem (map sigmoid raw) (Z.of_nat j))
              (slice_from (introselect (map sigmoid raw)
                 (Z.to_nat (if (- (n_rec + Z.of_nat (length consumed)) <? 0)%Z
                            then (- (n_rec + Z.of_nat (length consumed))
                                  + Z.of_nat (length (map sigmoid raw)))%Z
                            else (- (n_rec + Z.of_nat (length consumed)))%Z)))
                 (- (n_rec + Z.of_nat (length consumed))))) as [scores ->].
  - unfold slice_from. apply Forall_drop.
    eapply Forall_impl; [apply Hvalid|]. intros j Hj. simpl in Hj.
    destruct (np_getitem_in_range (map sigmoid raw) (Z.of_nat j)) as (x & -> & _); [|eauto].
    apply bool_decide_eq_true_2. clear -Hj. lia.
  - simpl. unfold islice.
    replace (n_rec <? 0)%Z with true by (symmetry; apply Z.ltb_lt; lia).
    reflexivity.
Qed.

Lemma recommend_user_negative_witness :
  valid_order argsort
  /\ wf_model featured_din
  /\ py_not (_check_unknown_user featured_din 1) = false
  /\ user_consumed (data_info featured_din) !! 1%Z = Some [0; 1]%Z
  /\ recommend_user argsort featured_din 1 (-1) = Raise ValueError.
Proof.
  split; [apply argsort_valid_order|]. split; [apply featured_din_wf|].
  split; [reflexivity|]. split; [reflexivity|].
  apply (recommend_user_negative argsort featured_din 1 (-1) [0; 1]%Z
           argsort_valid_order featured_din_wf eq_refl eq_refl).
  lia.
Defined.

(** X7. On a fitted model and for a user past the guard, when the selection
    order lists indices of the score array, [n_rec] is not negative and
    [n_rec] plus the number of consumed items does not exceed the number of
    items, [recommend_user] returns a list: it holds no consumed item, at
    most [n_rec] pairs, in descending order of score. *)
Theorem recommend_user_list (introselect : list R -> nat -> list nat) (m : DIN)
    (user n_rec : Z) (consumed : list Z) :
  valid_order introselect -> wf_model m ->
  py_not (_check_unknown_user m user) = false ->
  user_consumed (data_info m) !! user = Some consumed ->
  (0 <= n_rec)%Z ->
  (n_rec + Z.of_nat (length consumed) <= Z.of_nat (n_items (data_info m)))%Z ->
  exists recs,
    recommend_user introselect m user n_rec = Ok (Some recs)
    /\ Forall (fun rec => rec.1 ∉ consumed) recs
    /\ (Z.of_nat (length recs) <= n_rec)%Z
    /\ descending recs.
Proof.
  intros Hvalid Hm Hguard Hc Hn Hcount.
  destruct (recommend_user_rows introselect m user n_rec Hm Hguard)
    as (raw & Hraw & _ & ->).
  rewrite Hc. simpl.
  assert (length (map sigmoid raw) = n_items (data_info m)) as Hlen
    by (rewrite length_map; exact Hraw).
  destruct (select_unconsumed_total introselect (map sigmoid raw) consumed n_rec)
    as [recs Hrecs]; try assumption.
  - rewrite Hlen. apply (wf_items _ Hm).
  - rewrite Hlen. exact Hcount.
  - rewrite Hrecs. simpl. exists recs. split; [reflexivity|].
    exact (select_unconsumed_spec introselect _ consumed n_rec recs Hrecs).
Qed.

Lemma recommend_user_list_witness :
  valid_order argsort
  /\ wf_model shop_din
  /\ py_not (_check_unknown_user shop_din 1) = false
  /\ user_consumed (data_info shop_din) !! 1%Z = Some [0%Z]
  /\ exists recs,
       recommend_user argsort shop_din 1 2 = Ok (Some recs)
       /\ Forall (fun rec => rec.1 ∉ [0%Z]) recs
       /\ (Z.of_nat (length recs) <= 2)%Z
       /\ descending recs.
Proof.
  split; [apply argsort_valid_order|]. split; [apply shop_din_wf|].
  split; [reflexivity|]. split; [reflexivity|].
  apply (recommend_user_list argsort shop_din 1 2 [0%Z]
           argsort_valid_order shop_din_wf eq_refl eq_refl).
  - lia.
  - simpl. lia.
Defined.

(** ** Further properties of the graph *)

Section GraphProperties.
Local Open Scope R_scope.

(** X10. On a fitted model, for every row the keys of the attention unit are
    [max_seq_len] vectors of the feature length of the query: the composite
    embedding of every sequence step has the shape of the composite embedding
    of the candidate item. *)
Theorem keys_match_query (m : DIN) (x : feed_row) :
  wf_model m -> row_ok m x ->
  exists keys q,
    seq_total_embed m x = Ok keys
    /\ item_total_embed m x = Ok q
    /\ length keys = max_seq_len m
    /\ Forall (fun k => length k = length q) keys
    /\ length q = keys_dim m.
Proof.
  intros Hm Hx.
  destruct (seq_embed_list_total m x Hm Hx) as (parts & Hparts & Hlen & Hkeys).
  destruct (item_embed_list_total m x Hm Hx) as [ps Hps].
  assert (item_total_embed m x = Ok (concat ps)) as Hq.
  { unfold item_total_embed. rewrite Hps. reflexivity. }
  pose proof (item_total_embed_keys_dim m x _ Hm Hq) as Hdim.
  exists (concat_axis2 parts), (concat ps).
  split; [unfold seq_total_embed; rewrite Hparts; reflexivity|].
  split; [exact Hq|]. split; [exact Hlen|]. split; [|exact Hdim].
  rewrite Hdim. exact Hkeys.
Qed.

Lemma keys_match_query_witness :
  wf_model featured_din /\ row_ok featured_din featured_row
  /\ exists keys q,
       seq_total_embed featured_din featured_row = Ok keys
       /\ item_total_embed featured_din featured_row = Ok q
       /\ length keys = 2%nat
       /\ Forall (fun k => length k = length q) keys
       /\ length q = 6%nat.
Proof.
  split; [apply featured_din_wf|]. split; [apply featured_row_ok|].
  apply (keys_match_query featured_din featured_row featured_din_wf featured_row_ok).
Defined.

Lemma attention_unit_length (m : DIN) (q : list R) (keys : list (list R)) (l : nat)
    (pooled : list R) :
  use_tf_attention m = false ->
  _attention_unit m q keys l = Ok pooled -> length pooled = keys_dim m.
Proof.
  intros Hlib H. unfold _attention_unit in H. rewrite Hlib in H.
  apply bind_Ok in H as (w & _ & [= <-]).
  unfold matmul_row. rewrite length_map, length_seq. reflexivity.
Qed.

(** X11. On a fitted model with the non-library attention, the vector fed to
    the fusion network has length 2K, plus K for every sparse field, plus K
    for every dense field, plus the feature length of the pooled context. *)
Theorem concat_embed_length (m : DIN) (x : feed_row) :
  wf_model m -> row_ok m x -> use_tf_attention m = false ->
  exists c,
    concat_embed m x = Ok c
    /\ length c
       = (2 * embed_size m
          + (if sparse m then sparse_field_size m * embed_size m else 0)
          + (if dense m then dense_field_size m * embed_size m else 0)
          + keys_dim m)%nat.
Proof.
  intros Hm Hx Hlib. unfold concat_embed, user_embed, item_embed.
  rewrite (embedding_lookup_in_range _ _ _ _ (row_user _ _ Hx)).
  rewrite (embedding_lookup_in_range _ _ _ _ (row_item _ _ Hx)). simpl.
  assert (exists s, (if sparse m then se ← sparse_embed m x; Ok [concat se]
                     else Ok []) = Ok s
                    /\ length (concat s)
                       = if sparse m then (sparse_field_size m * embed_size m)%nat
                         else 0%nat) as (s & -> & Hs).
  { destruct (sparse m) eqn:Es; [|exists []; split; reflexivity].
    destruct (row_sparse_indices m x Hm Hx Es) as [Hlen Hrange].
    destruct (sparse_embed_total m x Hrange) as [se Hse]. rewrite Hse. simpl.
    eexists. split; [reflexivity|]. simpl. rewrite app_nil_r.
    destruct (sparse_embed_rows m x se Hse) as [Hrows Hsl].
    rewrite (concat_length_uniform _ _ Hrows), Hsl, Hlen. reflexivity. }
  simpl.
  assert (exists d, (if dense m then Ok [concat (dense_embed m x)] else Ok []) = Ok d
                    /\ length (concat d)
                       = if dense m then (dense_field_size m * embed_size m)%nat
                         else 0%nat) as (d & -> & Hd).
  { destruct (dense m) eqn:Ed; [|exists []; split; reflexivity].
    eexists. split; [reflexivity|]. simpl. rewrite app_nil_r.
    rewrite (concat_length_uniform _ _ (dense_embed_rows m x)).
    rewrite (dense_embed_length m x (row_dense_values m x Hm Hx Ed)). reflexivity. }
  simpl.
  destruct (build_attention_total m x Hm Hx) as [a Ha]. rewrite Ha. simpl.
  eexists. split; [reflexivity|].
  assert (length a = keys_dim m) as Hal.
  { unfold _build_attention in Ha.
    apply bind_Ok in Ha as (keys & _ & Ha). apply bind_Ok in Ha as (q & _ & Ha).
    eapply attention_unit_length; eassumption. }
  rewrite !length_app, !concat_app, !length_app, Hs, Hd, !table_row_length.
  simpl. rewrite app_nil_r, Hal. lia.
Qed.

Lemma concat_embed_length_witness :
  wf_model featured_din /\ row_ok featured_din featured_row
  /\ use_tf_attention featured_din = false
  /\ exists c, concat_embed featured_din featured_row = Ok c /\ length c = 16%nat.
Proof.
  split; [apply featured_din_wf|]. split; [apply featured_row_ok|].
  split; [reflexivity|].
  destruct (concat_embed_length featured_din featured_row featured_din_wf
              featured_row_ok eq_refl) as (c & Hc & Hlen).
  exists c. split; [exact Hc | exact Hlen].
Defined.

End GraphProperties.

Section GraphEdges.
Local Open Scope R_scope.

Lemma seq_dense_step_mismatch (rows : list (list R)) (vs : list R) :
  length rows <> length vs -> length rows <> 1%nat ->
  seq_dense_step rows vs = Raise InvalidArgumentError.
Proof.
  intros Hne H1. unfold seq_dense_step.
  rewrite bool_decide_eq_false_2 by exact Hne.
  destruct rows as [|r [|r' rows]]; try reflexivity. contradiction.
Qed.

(** X12. When the number of dense fields is neither one nor the number of
    item-level dense fields (the user has dense fields of its own), the
    graph yields no score for any row with a sequence step: the product of
    the dense table with the per-item dense values fails. *)
Theorem output_fails_on_mixed_dense (m : DIN) (x : feed_row) (a : array2 R) :
  item_dense_unique (data_info m) = Some a ->
  dense_field_size m <> ncols a ->
  dense_field_size m <> 1%nat ->
  user_interacted_seq x <> [] ->
  forall s, output m x <> Ok s.
Proof.
  intros Ha Hne H1 Hseq s H.
  unfold output in H. apply bind_Ok in H as (c & Hc & _).
  unfold concat_embed in Hc.
  apply bind_Ok in Hc as (ue & _ & Hc). apply bind_Ok in Hc as (ie & _ & Hc).
  apply bind_Ok in Hc as (sp & _ & Hc). apply bind_Ok in Hc as (d & _ & Hc).
  apply bind_Ok in Hc as (att & Hatt & _).
  unfold _build_attention in Hatt. apply bind_Ok in Hatt as (keys & Hkeys & _).
  unfold seq_total_embed in Hkeys. apply bind_Ok in Hkeys as (parts & Hparts & _).
  unfold seq_embed_list in Hparts.
  apply bind_Ok in Hparts as (p1 & _ & Hparts).
  apply bind_Ok in Hparts as (p2 & _ & Hparts).
  apply bind_Ok in Hparts as (p3 & Hd & _).
  rewrite Ha in Hd.
  apply bind_Ok in Hd as (df & Hdf & Hd).
  apply bind_Ok in Hd as (vals & Hvals & Hd).
  apply bind_Ok in Hd as (embed & Hembed & _).
  unfold attr in Hdf. destruct (dense m); [|discriminate]. injection Hdf as <-.
  destruct (user_interacted_seq x) as [|i0 rest]; [congruence|].
  apply mapM_Ok in Hvals. inversion Hvals as [|? v ? vals' Hv Hvs]; subst.
  apply mapM_Ok in Hembed. inversion Hembed as [|? e ? embed' He Hes]; subst.
  unfold tf_gather_row in Hv. destruct (in_range i0 (nrows a)); [|discriminate].
  injection Hv as <-.
  rewrite seq_dense_step_mismatch in He; [discriminate| |].
  - rewrite dense_feat_rows_length. unfold array2_row.
    rewrite length_map, length_seq. exact Hne.
  - rewrite dense_feat_rows_length. exact H1.
Qed.

Lemma output_fails_on_mixed_dense_witness :
  item_dense_unique (data_info mixed_dense_din)
  = Some {| nrows := 3; ncols := 1; cell := fun r _ => INR r |}
  /\ dense_field_size mixed_dense_din <> 1%nat
  /\ user_interacted_seq featured_row <> []
  /\ forall s, output mixed_dense_din featured_row <> Ok s.
Proof.
  split; [reflexivity|]. split; [discriminate|]. split; [discriminate|].
  apply (output_fails_on_mixed_dense mixed_dense_din featured_row
           {| nrows := 3; ncols := 1; cell := fun r _ => INR r |} eq_refl);
    discriminate.
Defined.

Lemma weighted_sum_bounds (d : nat) (lo hi : R) (w : list R) (keys : list (list R)) :
  Forall (fun x => 0 <= x) w -> length w = length keys ->
  Forall (fun k => lo <= nth d k 0 <= hi) keys ->
  sum_list w * lo
  <= sum_list (zip_with (fun ws k => ws * nth d k 0) w keys)
  <= sum_list w * hi.
Proof.
  intros Hw. revert keys. induction Hw as [|x w Hx _ IH]; intros [|k keys] Hlen Hk;
    simpl in *; try discriminate; [lra|].
  apply Forall_cons_1 in Hk as [Hk Hks].
  specialize (IH keys ltac:(lia) Hks). nra.
Qed.

(** X13. The pooled context of the non-library attention unit is a convex
    combination of the keys: the attention weights are not negative and sum
    to one, so every coordinate of the pooled context lies between the
    smallest and the largest value of that coordinate among the keys. *)
Theorem attention_pooled_within_keys (m : DIN) (q : list R) (keys : list (list R))
    (l d : nat) (lo hi : R) :
  use_tf_attention m = false ->
  (0 < max_seq_len m)%nat ->
  length keys = max_seq_len m ->
  Forall (fun k => length k = length q) keys ->
  (d < keys_dim m)%nat ->
  Forall (fun k => lo <= nth d k 0 <= hi) keys ->
  exists w pooled x,
    attention_scores m q keys l = Ok w
    /\ Forall (fun a => 0 <= a) w /\ sum_list w = 1
    /\ _attention_unit m q keys l = Ok pooled
    /\ pooled !! d = Some x /\ lo <= x <= hi.
Proof.
  intros Hlib Hn Hkeys Hq Hd Hbounds.
  destruct (attention_weights_total m q keys Hkeys Hq) as (logits & Hlog & Hlen).
  set (w := softmax (masked_scores m logits l)).
  assert (attention_scores m q keys l = Ok w) as Hw.
  { unfold attention_scores. rewrite Hlog. reflexivity. }
  assert (length w = max_seq_len m) as Hwl.
  { unfold w. rewrite softmax_length. apply masked_scores_length, Hlen. }
  assert (sum_list w = 1) as Hsum.
  { apply softmax_sum. intros E.
    pose proof (masked_scores_length m logits l Hlen) as Hml.
    rewrite E in Hml. simpl in Hml. lia. }
  pose proof (softmax_nonneg (masked_scores m logits l)) as Hnn. fold w in Hnn.
  exists w, (matmul_row (keys_dim m) w keys),
    (sum_list (zip_with (fun ws k => ws * nth d k 0) w keys)).
  split; [exact Hw|]. split; [exact Hnn|]. split; [exact Hsum|].
  split; [unfold _attention_unit; rewrite Hlib, Hw; reflexivity|].
  split.
  - unfold matmul_row. rewrite lookup_map, lookup_seq_lt by exact Hd. reflexivity.
  - pose proof (weighted_sum_bounds d lo hi w keys Hnn ltac:(congruence) Hbounds) as Hb.
    rewrite Hsum in Hb. lra.
Qed.

Lemma attention_pooled_within_keys_witness :
  use_tf_attention featured_din = false
  /\ (2 < keys_dim featured_din)%nat
  /\ exists w pooled x,
       attention_scores featured_din [1; 1; 1; 1; 1; 1]
         [[1; 2; 3; 4; 5; 6]; [0; 0; 0; 0; 2; 2]] 1 = Ok w
       /\ Forall (fun a => 0 <= a) w /\ sum_list w = 1
       /\ _attention_unit featured_din [1; 1; 1; 1; 1; 1]
            [[1; 2; 3; 4; 5; 6]; [0; 0; 0; 0; 2; 2]] 1 = Ok pooled
       /\ pooled !! 2%nat = Some x /\ 0 <= x <= 3.
Proof.
  split; [reflexivity|]. split; [unfold keys_dim; simpl; lia|].
  apply (attention_pooled_within_keys featured_din [1; 1; 1; 1; 1; 1]
           [[1; 2; 3; 4; 5; 6]; [0; 0; 0; 0; 2; 2]] 1 2 0 3).
  - reflexivity.
  - simpl. lia.
  - reflexivity.
  - repeat constructor.
  - unfold keys_dim. simpl. lia.
  - repeat constructor; simpl; lra.
Defined.

Lemma tf_where_all_true (start : nat) (l : nat) (x y : list R) :
  (start + length x <= l)%nat -> length y = length x ->
  tf_where (map (fun i => bool_decide (i < l)%nat) (seq start (length x))) x y = x.
Proof.
  revert start y. induction x as [|a x IH]; intros start [|b y] Hl Hy;
    simpl in *; try discriminate; [reflexivity|].
  rewrite bool_decide_eq_true_2 by lia.
  rewrite IH by lia. reflexivity.
Qed.

(** X14. With a true length of [max_seq_len] or more no position is masked:
    the attention weights are the softmax of the logits divided by the
    square root of the key length, and the padding constant plays no part. *)
Theorem attention_full_length (m : DIN) (q : list R) (keys : list (list R))
    (l : nat) (logits : list R) :
  (max_seq_len m <= l)%nat ->
  length keys = max_seq_len m ->
  attention_weights m q keys = Ok logits ->
  attention_scores m q keys l
  = Ok (softmax (map (fun a => div_no_nan a (sqrt (INR (keys_dim m)))) logits)).
Proof.
  intros Hl Hkeys Hlog.
  assert (length logits = max_seq_len m) as Hlen.
  { unfold attention_weights in Hlog.
    apply bind_Ok in Hlog as (cross & Hc & [= <-]).
    unfold queries_keys_cross in Hc. apply mapM_Ok_length in Hc.
    rewrite length_map, Hc, length_zip, length_replicate. lia. }
  unfold attention_scores. rewrite Hlog. simpl.
  unfold masked_scores, key_masks, sequence_mask.
  rewrite <- Hlen, tf_where_all_true; [reflexivity | lia | apply length_map].
Qed.

Lemma attention_full_length_witness :
  (max_seq_len featured_din <= 2)%nat
  /\ attention_weights featured_din [1; 1; 1; 1; 1; 1]
       [[1; 2; 3; 4; 5; 6]; [0; 0; 0; 0; 2; 2]] = Ok [33; 16]
  /\ attention_scores featured_din [1; 1; 1; 1; 1; 1]
       [[1; 2; 3; 4; 5; 6]; [0; 0; 0; 0; 2; 2]] 2
     = Ok (softmax (map (fun a => div_no_nan a (sqrt (INR (keys_dim featured_din))))
                        [33; 16])).
Proof.
  assert (attention_weights featured_din [1; 1; 1; 1; 1; 1]
            [[1; 2; 3; 4; 5; 6]; [0; 0; 0; 0; 2; 2]] = Ok [33; 16]) as Hlog.
  { unfold attention_weights, queries_keys_cross. simpl.
    repeat f_equal; lra. }
  split; [simpl; lia|]. split; [exact Hlog|].
  apply (attention_full_length featured_din [1; 1; 1; 1; 1; 1]
           [[1; 2; 3; 4; 5; 6]; [0; 0; 0; 0; 2; 2]] 2 [33; 16]).
  - simpl. lia.
  - reflexivity.
  - exact Hlog.
Defined.

End GraphEdges.
